(** * TechHelper AI front end: a model of the chat widget scripts

    The repository ships two near-identical browser scripts,
    [src/unnamed/part_000] (continuous speech recognition with a bounded
    restart policy and a 30 second safety timer) and [src/frontend/app.js]
    (single-shot recognition).  Both are embedded here as one event-driven
    state machine indexed by a [variant]:

    - the script's top-level [let] variables, the parts of the DOM it
      touches and the browser's timer and fetch queues form the [State];
    - every browser API call the scripts make is an [Effect];
    - every callback the scripts register is an [Event], and [step] runs
      the callback's body.

    Conventions: a [fetch] is an effect that leaves a pending request
    behind, and the [async] function that awaits it resumes when the event
    of that request settling arrives, so other callbacks may run in
    between; a timer is an entry in a queue that a later event fires;
    where a [try] block only guards [recognition.start()] and the outcome
    matters, the event carries whether the call throws; the WebSocket
    constructor throws on a URL it refuses, and [connectWebSocket] returns
    whether the socket was constructed.  Replies are
    taken to carry their text fields as strings, as the service's
    interface says.  Recognition, socket and timer events may arrive in
    any order: every property proved for all reachable states holds in
    particular for the orders a browser produces.

    Not modelled: console output, scrolling, the timestamp put next to
    each bubble, the pitch, volume and voice of an utterance, and the
    hiding of the voice option by the single-shot script. *)

From Stdlib Require Import NArith String Ascii.
From stdpp Require Import base option list gmap.

Local Open Scope N_scope.

(** ** JavaScript strings

    A string is its sequence of UTF-16 code units. *)

Abbreviation jsstring := (list N).

Fixpoint js (s : string) : jsstring :=
  match s with
  | EmptyString => []
  | String a r => N_of_ascii a :: js r
  end.

(** [WhiteSpace] and [LineTerminator] code points of ECMAScript, the
    characters [String.prototype.trim] strips. *)
Definition isWhiteSpace (c : N) : bool :=
  ((9 <=? c) && (c <=? 13)) || (c =? 32) || (c =? 160) || (c =? 5760)
  || ((8192 <=? c) && (c <=? 8202)) || (c =? 8232) || (c =? 8233)
  || (c =? 8239) || (c =? 8287) || (c =? 12288) || (c =? 65279).

Fixpoint trimStart (s : jsstring) : jsstring :=
  match s with
  | [] => []
  | c :: r => if isWhiteSpace c then trimStart r else s
  end.

Definition trimEnd (s : jsstring) : jsstring := rev (trimStart (rev s)).

Definition trim (s : jsstring) : jsstring := trimEnd (trimStart s).

(** Truthiness of a string: only the empty string is falsy. *)
Definition truthy (s : jsstring) : bool :=
  match s with
  | [] => false
  | _ :: _ => true
  end.

(** A value that is [undefined], [null] or a string: the session
    identifier starts as [null] and is then whatever the service put in
    the [session_id] field of its reply. *)
Inductive jsval :=
| undefined
| null
| str (s : jsstring).

(** Conversion to a string, as in a template literal. *)
Definition toString (v : jsval) : jsstring :=
  match v with
  | undefined => js "undefined"
  | null => js "null"
  | str s => s
  end.

(** ** Configuration *)

Definition API_URL : jsstring := js "http://localhost:8000".
Definition WS_URL : jsstring := js "ws://localhost:8000/ws".
Definition MAX_RESTART_ATTEMPTS : nat := 3.

(** ** Data *)

(** The two scripts. *)
Inductive variant :=
| Continuous   (* src/unnamed/part_000 *)
| SingleShot.  (* src/frontend/app.js *)

Inductive ReadyState := CONNECTING | OPEN | CLOSING | CLOSED.

Record WebSocket := mkWebSocket {
  url : jsstring;
  readyState : ReadyState
}.

(** The [type] argument of [showMessage]; the element's class is
    [message message-<type>]. *)
Inductive MessageType := user | assistant | error.

(** A child of [elements.messages]: its class and the text of its
    [.message-bubble]. *)
Record MessageEl := mkMessageEl {
  messageType : MessageType;
  bubble : jsstring
}.

(** What a pending timer runs when it fires. *)
Inductive TimerCallback :=
| SafetyTimeout    (* the 30000 ms callback set in [recognition.onstart] *)
| RestartTimeout.  (* the 100 ms callback set in [recognition.onend] *)

(** Which [async] function is suspended on a pending [fetch]. *)
Inductive Continuation :=
| AwaitStartSession
| AwaitSendMessage
| AwaitHumanHelp.

(** JSON request bodies. *)
Inductive Body :=
| BodyMessage (message : jsstring)
| BodyChat (message : jsstring) (session_id : jsval) (speak_slowly : bool)
| BodyPhone (phone : jsstring).

(** The fields the scripts read from a JSON reply. *)
Record Json := mkJson {
  session_id : jsval;
  response : jsstring;
  message : jsstring
}.

(** How a [fetch] settles: the promise rejects, or a response arrives with
    its [ok] flag and a body that [response.json()] parses ([Some]) or
    rejects ([None]). *)
Inductive Response :=
| Rejected
| Replied (ok : bool) (body : option Json).

(** A parsed socket frame; an absent field is [None] ([done] absent or
    falsy is [false]). *)
Record Frame := mkFrame {
  f_error : option jsstring;
  f_type : option jsstring;
  f_chunk : option jsstring;
  f_done : bool
}.

(** One entry of [event.results]: the transcript of its first alternative
    and its [isFinal] flag. *)
Record SpeechResult := mkSpeechResult {
  transcript : jsstring;
  isFinal : bool
}.

Record ResultEvent := mkResultEvent {
  resultIndex : nat;
  results : list SpeechResult
}.

(** The two rates [speak] uses. *)
Inductive Rate :=
| Rate07   (* 0.7 *)
| Rate09.  (* 0.9 *)

(** Calls into the browser. *)
Inductive Effect :=
| Fetch (rid : positive) (target : jsstring) (body : Body)
| NewWebSocket (target : jsstring)
| SocketClose
| SocketSend (body : Body)
| SynthCancel
| SynthSpeak (text : jsstring) (rate : Rate)
| RecognitionStart
| RecognitionStop
| RecognitionAbort
| Alert (text : jsstring)
| PhoneInputFocus.

(** ** State *)

(** The script's variables, the parts of the page it reads or writes, and
    the browser around it. *)
Record State := mkState {
  (* the top-level [let] variables *)
  sessionId : jsval;
  socket : option WebSocket;
  isRecording : bool;
  recognition : bool;
  speakSlowly : bool;
  lastResponse : jsstring;
  recordingTimeout : option positive;
  restartAttempts : nat;
  streamingMessageEl : option nat;
  streamingText : jsstring;
  (* the page: the children of [elements.messages], field values,
     placeholders, and the classes the script toggles *)
  messages : list MessageEl;
  messageInput_value : jsstring;
  messageInput_placeholder : jsstring;
  typingIndicator_hidden : bool;
  listeningIndicator_hidden : bool;
  micBtn_recording : bool;
  micBtn_innerHTML : jsstring;
  micBtn_display_none : bool;
  welcome_active : bool;
  chat_active : bool;
  humanHelpModal_hidden : bool;
  phoneInput_value : jsstring;
  speakSlowlyBtn_active : bool;
  (* the browser: which speech APIs exist, the timers queued by
     [setTimeout], the requests [fetch] has not settled yet *)
  speechSynthesis : bool;
  SpeechRecognition : bool;
  timers : gmap positive TimerCallback;
  nextTimer : positive;
  pending : gmap positive Continuation;
  nextRequest : positive
}.

(** [recordingTimeout] holds a timer identifier or [null];
    [streamingMessageEl] refers to the element it was appended as, by its
    index among the children of [elements.messages] (children are only
    ever appended, so the index keeps naming the same element).

    Assignment to one field: *)

Definition set_sessionId (x : jsval) (s : State) : State :=
  mkState x (socket s) (isRecording s) (recognition s) (speakSlowly s)
    (lastResponse s) (recordingTimeout s) (restartAttempts s)
    (streamingMessageEl s) (streamingText s) (messages s)
    (messageInput_value s) (messageInput_placeholder s)
    (typingIndicator_hidden s) (listeningIndicator_hidden s)
    (micBtn_recording s) (micBtn_innerHTML s) (micBtn_display_none s)
    (welcome_active s) (chat_active s) (humanHelpModal_hidden s)
    (phoneInput_value s) (speakSlowlyBtn_active s) (speechSynthesis s)
    (SpeechRecognition s) (timers s) (nextTimer s) (pending s) (nextRequest s).

Definition set_socket (x : option WebSocket) (s : State) : State :=
  mkState (sessionId s) x (isRecording s) (recognition s) (speakSlowly s)
    (lastResponse s) (recordingTimeout s) (restartAttempts s)
    (streamingMessageEl s) (streamingText s) (messages s)
    (messageInput_value s) (messageInput_placeholder s)
    (typingIndicator_hidden s) (listeningIndicator_hidden s)
    (micBtn_recording s) (micBtn_innerHTML s) (micBtn_display_none s)
    (welcome_active s) (chat_active s) (humanHelpModal_hidden s)
    (phoneInput_value s) (speakSlowlyBtn_active s) (speechSynthesis s)
    (SpeechRecognition s) (timers s) (nextTimer s) (pending s) (nextRequest s).

Definition set_isRecording (x : bool) (s : State) : State :=
  mkState (sessionId s) (socket s) x (recognition s) (speakSlowly s)
    (lastResponse s) (recordingTimeout s) (restartAttempts s)
    (streamingMessageEl s) (streamingText s) (messages s)
    (messageInput_value s) (messageInput_placeholder s)
    (typingIndicator_hidden s) (listeningIndicator_hidden s)
    (micBtn_recording s) (micBtn_innerHTML s) (micBtn_display_none s)
    (welcome_active s) (chat_active s) (humanHelpModal_hidden s)
    (phoneInput_value s) (speakSlowlyBtn_active s) (speechSynthesis s)
    (SpeechRecognition s) (timers s) (nextTimer s) (pending s) (nextRequest s).

Definition set_recognition (x : bool) (s : State) : State :=
  mkState (sessionId s) (socket s) (isRecording s) x (speakSlowly s)
    (lastResponse s) (recordingTimeout s) (restartAttempts s)
    (streamingMessageEl s) (streamingText s) (messages s)
    (messageInput_value s) (messageInput_placeholder s)
    (typingIndicator_hidden s) (listeningIndicator_hidden s)
    (micBtn_recording s) (micBtn_innerHTML s) (micBtn_display_none s)
    (welcome_active s) (chat_active s) (humanHelpModal_hidden s)
    (phoneInput_value s) (speakSlowlyBtn_active s) (speechSynthesis s)
    (SpeechRecognition s) (timers s) (nextTimer s) (pending s) (nextRequest s).

Definition set_speakSlowly (x : bool) (s : State) : State :=
  mkState (sessionId s) (socket s) (isRecording s) (recognition s) x
    (lastResponse s) (recordingTimeout s) (restartAttempts s)
    (streamingMessageEl s) (streamingText s) (messages s)
    (messageInput_value s) (messageInput_placeholder s)
    (typingIndicator_hidden s) (listeningIndicator_hidden s)
    (micBtn_recording s) (micBtn_innerHTML s) (micBtn_display_none s)
    (welcome_active s) (chat_active s) (humanHelpModal_hidden s)
    (phoneInput_value s) (speakSlowlyBtn_active s) (speechSynthesis s)
    (SpeechRecognition s) (timers s) (nextTimer s) (pending s) (nextRequest s).

Definition set_lastResponse (x : jsstring) (s : State) : State :=
  mkState (sessionId s) (socket s) (isRecording s) (recognition s)
    (speakSlowly s) x (recordingTimeout s) (restartAttempts s)
    (streamingMessageEl s) (streamingText s) (messages s)
    (messageInput_value s) (messageInput_placeholder s)
    (typingIndicator_hidden s) (listeningIndicator_hidden s)
    (micBtn_recording s) (micBtn_innerHTML s) (micBtn_display_none s)
    (welcome_active s) (chat_active s) (humanHelpModal_hidden s)
    (phoneInput_value s) (speakSlowlyBtn_active s) (speechSynthesis s)
    (SpeechRecognition s) (timers s) (nextTimer s) (pending s) (nextRequest s).

Definition set_recordingTimeout (x : option positive) (s : State) : State :=
  mkState (sessionId s) (socket s) (isRecording s) (recognition s)
    (speakSlowly s) (lastResponse s) x (restartAttempts s)
    (streamingMessageEl s) (streamingText s) (messages s)
    (messageInput_value s) (messageInput_placeholder s)
    (typingIndicator_hidden s) (listeningIndicator_hidden s)
    (micBtn_recording s) (micBtn_innerHTML s) (micBtn_display_none s)
    (welcome_active s) (chat_active s) (humanHelpModal_hidden s)
    (phoneInput_value s) (speakSlowlyBtn_active s) (speechSynthesis s)
    (SpeechRecognition s) (timers s) (nextTimer s) (pending s) (nextRequest s).

Definition set_restartAttempts (x : nat) (s : State) : State :=
  mkState (sessionId s) (socket s) (isRecording s) (recognition s)
    (speakSlowly s) (lastResponse s) (recordingTimeout s) x
    (streamingMessageEl s) (streamingText s) (messages s)
    (messageInput_value s) (messageInput_placeholder s)
    (typingIndicator_hidden s) (listeningIndicator_hidden s)
    (micBtn_recording s) (micBtn_innerHTML s) (micBtn_display_none s)
    (welcome_active s) (chat_active s) (humanHelpModal_hidden s)
    (phoneInput_value s) (speakSlowlyBtn_active s) (speechSynthesis s)
    (SpeechRecognition s) (timers s) (nextTimer s) (pending s) (nextRequest s).

Definition set_streamingMessageEl (x : option nat) (s : State) : State :=
  mkState (sessionId s) (socket s) (isRecording s) (recognition s)
    (speakSlowly s) (lastResponse s) (recordingTimeout s) (restartAttempts s)
    x (streamingText s) (messages s) (messageInput_value s)
    (messageInput_placeholder s) (typingIndicator_hidden s)
    (listeningIndicator_hidden s) (micBtn_recording s) (micBtn_innerHTML s)
    (micBtn_display_none s) (welcome_active s) (chat_active s)
    (humanHelpModal_hidden s) (phoneInput_value s) (speakSlowlyBtn_active s)
    (speechSynthesis s) (SpeechRecognition s) (timers s) (nextTimer s)
    (pending s) (nextRequest s).

Definition set_streamingText (x : jsstring) (s : State) : State :=
  mkState (sessionId s) (socket s) (isRecording s) (recognition s)
    (speakSlowly s) (lastResponse s) (recordingTimeout s) (restartAttempts s)
    (streamingMessageEl s) x (messages s) (messageInput_value s)
    (messageInput_placeholder s) (typingIndicator_hidden s)
    (listeningIndicator_hidden s) (micBtn_recording s) (micBtn_innerHTML s)
    (micBtn_display_none s) (welcome_active s) (chat_active s)
    (humanHelpModal_hidden s) (phoneInput_value s) (speakSlowlyBtn_active s)
    (speechSynthesis s) (SpeechRecognition s) (timers s) (nextTimer s)
    (pending s) (nextRequest s).

Definition set_messages (x : list MessageEl) (s : State) : State :=
  mkState (sessionId s) (socket s) (isRecording s) (recognition s)
    (speakSlowly s) (lastResponse s) (recordingTimeout s) (restartAttempts s)
    (streamingMessageEl s) (streamingText s) x (messageInput_value s)
    (messageInput_placeholder s) (typingIndicator_hidden s)
    (listeningIndicator_hidden s) (micBtn_recording s) (micBtn_innerHTML s)
    (micBtn_display_none s) (welcome_active s) (chat_active s)
    (humanHelpModal_hidden s) (phoneInput_value s) (speakSlowlyBtn_active s)
    (speechSynthesis s) (SpeechRecognition s) (timers s) (nextTimer s)
    (pending s) (nextRequest s).

Definition set_messageInput_value (x : jsstring) (s : State) : State :=
  mkState (sessionId s) (socket s) (isRecording s) (recognition s)
    (speakSlowly s) (lastResponse s) (recordingTimeout s) (restartAttempts s)
    (streamingMessageEl s) (streamingText s) (messages s) x
    (messageInput_placeholder s) (typingIndicator_hidden s)
    (listeningIndicator_hidden s) (micBtn_recording s) (micBtn_innerHTML s)
    (micBtn_display_none s) (welcome_active s) (chat_active s)
    (humanHelpModal_hidden s) (phoneInput_value s) (speakSlowlyBtn_active s)
    (speechSynthesis s) (SpeechRecognition s) (timers s) (nextTimer s)
    (pending s) (nextRequest s).

Definition set_messageInput_placeholder (x : jsstring) (s : State) : State :=
  mkState (sessionId s) (socket s) (isRecording s) (recognition s)
    (speakSlowly s) (lastResponse s) (recordingTimeout s) (restartAttempts s)
    (streamingMessageEl s) (streamingText s) (messages s)
    (messageInput_value s) x (typingIndicator_hidden s)
    (listeningIndicator_hidden s) (micBtn_recording s) (micBtn_innerHTML s)
    (micBtn_display_none s) (welcome_active s) (chat_active s)
    (humanHelpModal_hidden s) (phoneInput_value s) (speakSlowlyBtn_active s)
    (speechSynthesis s) (SpeechRecognition s) (timers s) (nextTimer s)
    (pending s) (nextRequest s).

Definition set_typingIndicator_hidden (x : bool) (s : State) : State :=
  mkState (sessionId s) (socket s) (isRecording s) (recognition s)
    (speakSlowly s) (lastResponse s) (recordingTimeout s) (restartAttempts s)
    (streamingMessageEl s) (streamingText s) (messages s)
    (messageInput_value s) (messageInput_placeholder s) x
    (listeningIndicator_hidden s) (micBtn_recording s) (micBtn_innerHTML s)
    (micBtn_display_none s) (welcome_active s) (chat_active s)
    (humanHelpModal_hidden s) (phoneInput_value s) (speakSlowlyBtn_active s)
    (speechSynthesis s) (SpeechRecognition s) (timers s) (nextTimer s)
    (pending s) (nextRequest s).

Definition set_listeningIndicator_hidden (x : bool) (s : State) : State :=
  mkState (sessionId s) (socket s) (isRecording s) (recognition s)
    (speakSlowly s) (lastResponse s) (recordingTimeout s) (restartAttempts s)
    (streamingMessageEl s) (streamingText s) (messages s)
    (messageInput_value s) (messageInput_placeholder s)
    (typingIndicator_hidden s) x (micBtn_recording s) (micBtn_innerHTML s)
    (micBtn_display_none s) (welcome_active s) (chat_active s)
    (humanHelpModal_hidden s) (phoneInput_value s) (speakSlowlyBtn_active s)
    (speechSynthesis s) (SpeechRecognition s) (timers s) (nextTimer s)
    (pending s) (nextRequest s).

Definition set_micBtn_recording (x : bool) (s : State) : State :=
  mkState (sessionId s) (socket s) (isRecording s) (recognition s)
    (speakSlowly s) (lastResponse s) (recordingTimeout s) (restartAttempts s)
    (streamingMessageEl s) (streamingText s) (messages s)
    (messageInput_value s) (messageInput_placeholder s)
    (typingIndicator_hidden s) (listeningIndicator_hidden s) x
    (micBtn_innerHTML s) (micBtn_display_none s) (welcome_active s)
    (chat_active s) (humanHelpModal_hidden s) (phoneInput_value s)
    (speakSlowlyBtn_active s) (speechSynthesis s) (SpeechRecognition s)
    (timers s) (nextTimer s) (pending s) (nextRequest s).

Definition set_micBtn_innerHTML (x : jsstring) (s : State) : State :=
  mkState (sessionId s) (socket s) (isRecording s) (recognition s)
    (speakSlowly s) (lastResponse s) (recordingTimeout s) (restartAttempts s)
    (streamingMessageEl s) (streamingText s) (messages s)
    (messageInput_value s) (messageInput_placeholder s)
    (typingIndicator_hidden s) (listeningIndicator_hidden s)
    (micBtn_recording s) x (micBtn_display_none s) (welcome_active s)
    (chat_active s) (humanHelpModal_hidden s) (phoneInput_value s)
    (speakSlowlyBtn_active s) (speechSynthesis s) (SpeechRecognition s)
    (timers s) (nextTimer s) (pending s) (nextRequest s).

Definition set_micBtn_display_none (x : bool) (s : State) : State :=
  mkState (sessionId s) (socket s) (isRecording s) (recognition s)
    (speakSlowly s) (lastResponse s) (recordingTimeout s) (restartAttempts s)
    (streamingMessageEl s) (streamingText s) (messages s)
    (messageInput_value s) (messageInput_placeholder s)
    (typingIndicator_hidden s) (listeningIndicator_hidden s)
    (micBtn_recording s) (micBtn_innerHTML s) x (welcome_active s)
    (chat_active s) (humanHelpModal_hidden s) (phoneInput_value s)
    (speakSlowlyBtn_active s) (speechSynthesis s) (SpeechRecognition s)
    (timers s) (nextTimer s) (pending s) (nextRequest s).

Definition set_welcome_active (x : bool) (s : State) : State :=
  mkState (sessionId s) (socket s) (isRecording s) (recognition s)
    (speakSlowly s) (lastResponse s) (recordingTimeout s) (restartAttempts s)
    (streamingMessageEl s) (streamingText s) (messages s)
    (messageInput_value s) (messageInput_placeholder s)
    (typingIndicator_hidden s) (listeningIndicator_hidden s)
    (micBtn_recording s) (micBtn_innerHTML s) (micBtn_display_none s) x
    (chat_active s) (humanHelpModal_hidden s) (phoneInput_value s)
    (speakSlowlyBtn_active s) (speechSynthesis s) (SpeechRecognition s)
    (timers s) (nextTimer s) (pending s) (nextRequest s).

Definition set_chat_active (x : bool) (s : State) : State :=
  mkState (sessionId s) (socket s) (isRecording s) (recognition s)
    (speakSlowly s) (lastResponse s) (recordingTimeout s) (restartAttempts s)
    (streamingMessageEl s) (streamingText s) (messages s)
    (messageInput_value s) (messageInput_placeholder s)
    (typingIndicator_hidden s) (listeningIndicator_hidden s)
    (micBtn_recording s) (micBtn_innerHTML s) (micBtn_display_none s)
    (welcome_active s) x (humanHelpModal_hidden s) (phoneInput_value s)
    (speakSlowlyBtn_active s) (speechSynthesis s) (SpeechRecognition s)
    (timers s) (nextTimer s) (pending s) (nextRequest s).

Definition set_humanHelpModal_hidden (x : bool) (s : State) : State :=
  mkState (sessionId s) (socket s) (isRecording s) (recognition s)
    (speakSlowly s) (lastResponse s) (recordingTimeout s) (restartAttempts s)
    (streamingMessageEl s) (streamingText s) (messages s)
    (messageInput_value s) (messageInput_placeholder s)
    (typingIndicator_hidden s) (listeningIndicator_hidden s)
    (micBtn_recording s) (micBtn_innerHTML s) (micBtn_display_none s)
    (welcome_active s) (chat_active s) x (phoneInput_value s)
    (speakSlowlyBtn_active s) (speechSynthesis s) (SpeechRecognition s)
    (timers s) (nextTimer s) (pending s) (nextRequest s).

Definition set_phoneInput_value (x : jsstring) (s : State) : State :=
  mkState (sessionId s) (socket s) (isRecording s) (recognition s)
    (speakSlowly s) (lastResponse s) (recordingTimeout s) (restartAttempts s)
    (streamingMessageEl s) (streamingText s) (messages s)
    (messageInput_value s) (messageInput_placeholder s)
    (typingIndicator_hidden s) (listeningIndicator_hidden s)
    (micBtn_recording s) (micBtn_innerHTML s) (micBtn_display_none s)
    (welcome_active s) (chat_active s) (humanHelpModal_hidden s) x
    (speakSlowlyBtn_active s) (speechSynthesis s) (SpeechRecognition s)
    (timers s) (nextTimer s) (pending s) (nextRequest s).

Definition set_speakSlowlyBtn_active (x : bool) (s : State) : State :=
  mkState (sessionId s) (socket s) (isRecording s) (recognition s)
    (speakSlowly s) (lastResponse s) (recordingTimeout s) (restartAttempts s)
    (streamingMessageEl s) (streamingText s) (messages s)
    (messageInput_value s) (messageInput_placeholder s)
    (typingIndicator_hidden s) (listeningIndicator_hidden s)
    (micBtn_recording s) (micBtn_innerHTML s) (micBtn_display_none s)
    (welcome_active s) (chat_active s) (humanHelpModal_hidden s)
    (phoneInput_value s) x (speechSynthesis s) (SpeechRecognition s)
    (timers s) (nextTimer s) (pending s) (nextRequest s).

Definition set_speechSynthesis (x : bool) (s : State) : State :=
  mkState (sessionId s) (socket s) (isRecording s) (recognition s)
    (speakSlowly s) (lastResponse s) (recordingTimeout s) (restartAttempts s)
    (streamingMessageEl s) (streamingText s) (messages s)
    (messageInput_value s) (messageInput_placeholder s)
    (typingIndicator_hidden s) (listeningIndicator_hidden s)
    (micBtn_recording s) (micBtn_innerHTML s) (micBtn_display_none s)
    (welcome_active s) (chat_active s) (humanHelpModal_hidden s)
    (phoneInput_value s) (speakSlowlyBtn_active s) x (SpeechRecognition s)
    (timers s) (nextTimer s) (pending s) (nextRequest s).

Definition set_SpeechRecognition (x : bool) (s : State) : State :=
  mkState (sessionId s) (socket s) (isRecording s) (recognition s)
    (speakSlowly s) (lastResponse s) (recordingTimeout s) (restartAttempts s)
    (streamingMessageEl s) (streamingText s) (messages s)
    (messageInput_value s) (messageInput_placeholder s)
    (typingIndicator_hidden s) (listeningIndicator_hidden s)
    (micBtn_recording s) (micBtn_innerHTML s) (micBtn_display_none s)
    (welcome_active s) (chat_active s) (humanHelpModal_hidden s)
    (phoneInput_value s) (speakSlowlyBtn_active s) (speechSynthesis s) x
    (timers s) (nextTimer s) (pending s) (nextRequest s).

Definition set_timers (x : gmap positive TimerCallback) (s : State) : State :=
  mkState (sessionId s) (socket s) (isRecording s) (recognition s)
    (speakSlowly s) (lastResponse s) (recordingTimeout s) (restartAttempts s)
    (streamingMessageEl s) (streamingText s) (messages s)
    (messageInput_value s) (messageInput_placeholder s)
    (typingIndicator_hidden s) (listeningIndicator_hidden s)
    (micBtn_recording s) (micBtn_innerHTML s) (micBtn_display_none s)
    (welcome_active s) (chat_active s) (humanHelpModal_hidden s)
    (phoneInput_value s) (speakSlowlyBtn_active s) (speechSynthesis s)
    (SpeechRecognition s) x (nextTimer s) (pending s) (nextRequest s).

Definition set_nextTimer (x : positive) (s : State) : State :=
  mkState (sessionId s) (socket s) (isRecording s) (recognition s)
    (speakSlowly s) (lastResponse s) (recordingTimeout s) (restartAttempts s)
    (streamingMessageEl s) (streamingText s) (messages s)
    (messageInput_value s) (messageInput_placeholder s)
    (typingIndicator_hidden s) (listeningIndicator_hidden s)
    (micBtn_recording s) (micBtn_innerHTML s) (micBtn_display_none s)
    (welcome_active s) (chat_active s) (humanHelpModal_hidden s)
    (phoneInput_value s) (speakSlowlyBtn_active s) (speechSynthesis s)
    (SpeechRecognition s) (timers s) x (pending s) (nextRequest s).

Definition set_pending (x : gmap positive Continuation) (s : State) : State :=
  mkState (sessionId s) (socket s) (isRecording s) (recognition s)
    (speakSlowly s) (lastResponse s) (recordingTimeout s) (restartAttempts s)
    (streamingMessageEl s) (streamingText s) (messages s)
    (messageInput_value s) (messageInput_placeholder s)
    (typingIndicator_hidden s) (listeningIndicator_hidden s)
    (micBtn_recording s) (micBtn_innerHTML s) (micBtn_display_none s)
    (welcome_active s) (chat_active s) (humanHelpModal_hidden s)
    (phoneInput_value s) (speakSlowlyBtn_active s) (speechSynthesis s)
    (SpeechRecognition s) (timers s) (nextTimer s) x (nextRequest s).

Definition set_nextRequest (x : positive) (s : State) : State :=
  mkState (sessionId s) (socket s) (isRecording s) (recognition s)
    (speakSlowly s) (lastResponse s) (recordingTimeout s) (restartAttempts s)
    (streamingMessageEl s) (streamingText s) (messages s)
    (messageInput_value s) (messageInput_placeholder s)
    (typingIndicator_hidden s) (listeningIndicator_hidden s)
    (micBtn_recording s) (micBtn_innerHTML s) (micBtn_display_none s)
    (welcome_active s) (chat_active s) (humanHelpModal_hidden s)
    (phoneInput_value s) (speakSlowlyBtn_active s) (speechSynthesis s)
    (SpeechRecognition s) (timers s) (nextTimer s) (pending s) x.

(** ** A state and output monad for the callbacks *)

Definition M (A : Type) : Type := State → A * State * list Effect.

Definition ret {A} (a : A) : M A := λ s, (a, s, []).

Definition bind {A B} (m : M A) (k : A → M B) : M B :=
  λ s, let '(a, s1, e1) := m s in
       let '(b, s2, e2) := k a s1 in
       (b, s2, e1 ++ e2).

Definition get {A} (f : State → A) : M A := λ s, (f s, s, []).
Definition modify (f : State → State) : M unit := λ s, (tt, f s, []).
Definition emit (e : Effect) : M unit := λ s, (tt, s, [e]).

(** Truthiness of a variable that is [null] or an object. *)
Definition present {A} (o : option A) : bool :=
  match o with
  | Some _ => true
  | None => false
  end.

Definition when (b : bool) (m : M unit) : M unit := if b then m else ret tt.

Declare Scope js_scope.
Delimit Scope js_scope with jsm.
Notation "x '<-' m ';;' k" := (bind m (λ x, k))
  (at level 100, m at next level, right associativity) : js_scope.
Notation "m ';;' k" := (bind m (λ _, k))
  (at level 100, right associativity) : js_scope.
Local Open Scope js_scope.

Definition state_of {A} (r : A * State * list Effect) : State := r.1.2.
Definition effects_of {A} (r : A * State * list Effect) : list Effect := r.2.

(** ** Browser primitives *)

(** Timer identifiers are handed out in increasing order and are never
    zero, so a stored identifier is always truthy. *)
Definition setTimeout (cb : TimerCallback) : M positive :=
  id <- get nextTimer;;
  modify (λ s, set_nextTimer (Pos.succ id)
                 (set_timers (<[id := cb]> (timers s)) s));;
  ret id.

Definition clearTimeout (id : positive) : M unit :=
  modify (λ s, set_timers (delete id (timers s)) s).

(** [fetch] issues the request and suspends the calling [async] function
    until the request settles. *)
Definition fetch (target : jsstring) (b : Body) (k : Continuation) : M unit :=
  rid <- get nextRequest;;
  modify (λ s, set_nextRequest (Pos.succ rid)
                 (set_pending (<[rid := k]> (pending s)) s));;
  emit (Fetch rid target b).

(** ** Speech synthesis *)

Definition speak (text : jsstring) : M unit :=
  synth <- get speechSynthesis;;
  if negb synth then ret tt
  else
    emit SynthCancel;;
    slow <- get speakSlowly;;
    emit (SynthSpeak text (if slow then Rate07 else Rate09)).

(** [window.speechSynthesis.cancel()] without a guard: where the engine is
    absent the call throws and the handler ends. *)
Definition stopSpeaking : M unit :=
  synth <- get speechSynthesis;;
  when synth (emit SynthCancel).

(** ** Message handling *)

Definition showMessage (type : MessageType) (text : jsstring) : M unit :=
  modify (λ s, set_messages (messages s ++ [mkMessageEl type text]) s).

Definition startStreamingMessage : M unit :=
  modify (λ s, set_streamingMessageEl (Some (length (messages s))) s);;
  modify (λ s, set_messages (messages s ++ [mkMessageEl assistant []]) s);;
  modify (set_streamingText []).

Definition setBubble (text : jsstring) (m : MessageEl) : MessageEl :=
  mkMessageEl (messageType m) text.

Definition updateStreamingMessage (chunk : jsstring) : M unit :=
  el <- get streamingMessageEl;;
  when (negb (present el)) startStreamingMessage;;
  modify (λ s, set_streamingText (streamingText s ++ chunk) s);;
  modify (λ s, match streamingMessageEl s with
               | Some i =>
                   set_messages (alter (setBubble (streamingText s)) i
                                   (messages s)) s
               | None => s
               end).

Definition finishStreamingMessage : M unit :=
  el <- get streamingMessageEl;;
  when (present el)
    (text <- get streamingText;;
     modify (set_lastResponse text);;
     speak text;;
     modify (set_streamingMessageEl None);;
     modify (set_streamingText []));;
  modify (set_typingIndicator_hidden true).

(** ** WebSocket *)

(** [new WebSocket(url)] throws a [SyntaxError] when [url] does not parse,
    has a scheme other than [ws], [wss], [http] or [https], or has a
    fragment.  The URLs the scripts build start with [WS_URL] and a slash:
    they parse, with scheme [ws], whatever follows, and they have a
    fragment exactly when a [#] (code unit 35) occurs in them. *)
Definition hasFragment (target : jsstring) : bool := existsb (N.eqb 35) target.

(** [socket.close()] leaves a socket that is not closed yet in the state
    [CLOSING]. *)
Definition closing (w : WebSocket) : WebSocket :=
  mkWebSocket (url w)
    (match readyState w with
     | CLOSED => CLOSED
     | _ => CLOSING
     end).

(** [connectWebSocket] returns [false] when the constructor throws: the
    assignment to [socket] has then not happened, so the socket held
    before, closed by now, is still the one held, and no handler has been
    attached.  [NewWebSocket] stands for a socket that was constructed. *)
Definition connectWebSocket : M bool :=
  sock <- get socket;;
  when (present sock)
    (emit SocketClose;;
     modify (λ s, set_socket (closing <$> socket s) s));;
  sid <- get sessionId;;
  let target := WS_URL ++ js "/" ++ toString sid in
  if hasFragment target then ret false
  else
    modify (set_socket (Some (mkWebSocket target CONNECTING)));;
    emit (NewWebSocket target);;
    ret true.

Definition truthyField (f : option jsstring) : bool :=
  match f with
  | Some t => truthy t
  | None => false
  end.

(** [socket.onmessage]; [None] is a payload [JSON.parse] rejects. *)
Definition socket_onmessage (data : option Frame) : M unit :=
  match data with
  | None => ret tt
  | Some d =>
      if truthyField (f_error d) then
        showMessage error (default [] (f_error d));;
        modify (set_typingIndicator_hidden true)
      else if bool_decide (f_type d = Some (js "stats")) then ret tt
      else
        when (truthyField (f_chunk d))
          (updateStreamingMessage (default [] (f_chunk d)));;
        when (f_done d) finishStreamingMessage
  end.

Definition socket_onerror (v : variant) : M unit :=
  match v with
  | Continuous => showMessage error (js "Connection error. Please try again.")
  | SingleShot => ret tt
  end.

Definition setReadyState (r : ReadyState) : M unit :=
  modify (λ s, set_socket ((λ w, mkWebSocket (url w) r) <$> socket s) s).

(** ** Send message *)

Definition socketOpen (sock : option WebSocket) : bool :=
  match sock with
  | Some w => match readyState w with OPEN => true | _ => false end
  | None => false
  end.

Definition sendFailedText (v : variant) : jsstring :=
  match v with
  | Continuous => js "Sorry, I had trouble connecting. Please try again."
  | SingleShot => js "Sorry, connection issue. Please try again."
  end.

(** [sendMessage] up to its [await]. *)
Definition sendMessage (text : jsstring) : M unit :=
  if negb (truthy (trim text)) then ret tt
  else
    showMessage user text;;
    modify (set_messageInput_value []);;
    modify (set_typingIndicator_hidden false);;
    sock <- get socket;;
    if socketOpen sock then emit (SocketSend (BodyMessage text))
    else
      sid <- get sessionId;;
      slow <- get speakSlowly;;
      fetch (API_URL ++ js "/chat") (BodyChat text sid slow) AwaitSendMessage.

(** The rest of [sendMessage], run when its request settles. *)
Definition sendMessage_settled (v : variant) (r : Response) : M unit :=
  match r with
  | Replied true (Some data) =>
      modify (set_sessionId (session_id data));;
      showMessage assistant (response data);;
      speak (response data);;
      modify (set_lastResponse (response data));;
      modify (set_typingIndicator_hidden true)
  | _ =>
      showMessage error (sendFailedText v);;
      modify (set_typingIndicator_hidden true)
  end.

(** ** Session management *)

Definition startFailedText (v : variant) : jsstring :=
  match v with
  | Continuous =>
      js "Could not connect to the service. Please try again later."
  | SingleShot => js "Could not connect. Please try again."
  end.

Definition startSession : M unit :=
  fetch (API_URL ++ js "/chat") (BodyMessage (js "Hello")) AwaitStartSession.

(** The rest of [startSession], run when its request settles.  The call
    of [connectWebSocket] sits inside the [try]: when the constructor
    throws, the [catch] block raises the alert, after the identifier has
    been stored and the screens switched. *)
Definition startSession_settled (v : variant) (r : Response) : M unit :=
  match r with
  | Replied _ (Some data) =>
      modify (set_sessionId (session_id data));;
      modify (set_welcome_active false);;
      modify (set_chat_active true);;
      connected <- connectWebSocket;;
      if connected then
        showMessage assistant (response data);;
        speak (response data);;
        modify (set_lastResponse (response data))
      else emit (Alert (startFailedText v))
  | _ => emit (Alert (startFailedText v))
  end.

(** ** Human help *)

Definition helpFailedText (v : variant) : jsstring :=
  match v with
  | Continuous =>
      js "Could not request help. Please call 1-800-TECH-HELP directly."
  | SingleShot => js "Could not request help. Please call 1-800-TECH-HELP."
  end.

Definition showHumanHelpModal : M unit :=
  modify (set_humanHelpModal_hidden false);;
  emit PhoneInputFocus.

Definition hideHumanHelpModal : M unit :=
  modify (set_humanHelpModal_hidden true);;
  modify (set_phoneInput_value []).

Definition requestHumanHelp : M unit :=
  phone <- get (λ s, trim (phoneInput_value s));;
  sid <- get sessionId;;
  fetch (API_URL ++ js "/session/" ++ toString sid ++ js "/human-help")
    (BodyPhone phone) AwaitHumanHelp.

Definition requestHumanHelp_settled (v : variant) (r : Response) : M unit :=
  match r with
  | Replied _ (Some data) =>
      hideHumanHelpModal;;
      showMessage assistant (message data);;
      speak (message data)
  | _ => showMessage error (helpFailedText v)
  end.

(** ** Speech recognition *)

(** [recognition] is [false] for [null] and [true] once
    [initSpeechRecognition] has built the recogniser and attached its
    handlers. *)
Definition initSpeechRecognition (v : variant) : M bool :=
  supported <- get SpeechRecognition;;
  if negb supported then
    match v with
    | Continuous => modify (set_micBtn_display_none true)
    | SingleShot => ret tt
    end;;
    ret false
  else
    modify (set_recognition true);;
    ret true.

Definition stopLabel : jsstring := [55357; 56628] ++ js " Stop Recording".
Definition speakLabel : jsstring :=
  [55356; 57252] ++ js " Or tap here to speak".

Definition stopRecording (v : variant) : M unit :=
  modify (set_isRecording false);;
  match v with
  | Continuous =>
      modify (set_restartAttempts 0%nat);;
      t <- get recordingTimeout;;
      match t with
      | Some id => clearTimeout id;; modify (set_recordingTimeout None)
      | None => ret tt
      end;;
      r <- get recognition;;
      when r (emit RecognitionStop;; emit RecognitionAbort);;
      modify (set_micBtn_recording false);;
      modify (set_listeningIndicator_hidden true);;
      modify (set_messageInput_placeholder (js "Type your question here..."))
  | SingleShot =>
      r <- get recognition;;
      when r (emit RecognitionStop);;
      modify (set_micBtn_recording false);;
      modify (set_micBtn_innerHTML speakLabel);;
      modify (set_messageInput_placeholder
                (js "Tap here and type your question..."))
  end.

(** [recognition.start()] sits in a [try] whose handler only logs, so
    whether it throws makes no difference here. *)
Definition startRecording (v : variant) : M unit :=
  r <- get recognition;;
  ok <- (if r then ret true else initSpeechRecognition v);;
  if negb ok then
    match v with
    | Continuous =>
        showMessage error (js "Voice input is not supported on your device.")
    | SingleShot =>
        emit (Alert (js "Voice input is not supported in your browser. Please type instead."))
    end
  else
    match v with
    | Continuous => ret tt
    | SingleShot => modify (set_messageInput_value [])
    end;;
    emit RecognitionStart.

(** The callback of the 30 second timer. *)
Definition safetyTimeout (v : variant) : M unit :=
  recording <- get isRecording;;
  when recording
    (stopRecording v;;
     text <- get (λ s, trim (messageInput_value s));;
     when (truthy text) (sendMessage text)).

Definition recognition_onstart (v : variant) : M unit :=
  modify (set_isRecording true);;
  match v with
  | Continuous =>
      modify (set_restartAttempts 0%nat);;
      modify (set_micBtn_recording true);;
      modify (set_listeningIndicator_hidden false);;
      modify (set_messageInput_placeholder (js "Listening... Speak clearly"));;
      t <- get recordingTimeout;;
      match t with
      | Some id => clearTimeout id
      | None => ret tt
      end;;
      id <- setTimeout SafetyTimeout;;
      modify (set_recordingTimeout (Some id))
  | SingleShot =>
      modify (set_micBtn_recording true);;
      modify (set_micBtn_innerHTML stopLabel);;
      modify (set_messageInput_placeholder (js "Listening... speak now"))
  end.

(** The loop of the continuous script over [event.results]: final and
    interim transcripts, each concatenated in order. *)
Definition collectTranscripts (rs : list SpeechResult) : jsstring * jsstring :=
  foldl (λ acc r, if isFinal r then (acc.1 ++ transcript r, acc.2)
                  else (acc.1, acc.2 ++ transcript r)) ([], []) rs.

(** The loop of the single-shot script. *)
Definition joinTranscripts (rs : list SpeechResult) : jsstring :=
  foldl (λ acc r, acc ++ transcript r) [] rs.

Definition recognition_onresult (v : variant) (ev : ResultEvent) : M unit :=
  match v with
  | Continuous =>
      let t := collectTranscripts (drop (resultIndex ev) (results ev)) in
      when (truthy t.2) (modify (set_messageInput_value t.2));;
      when (truthy t.1)
        (modify (set_messageInput_value t.1);;
         modify (set_messageInput_placeholder
                   (js "Still listening... tap mic when done")))
  | SingleShot =>
      let t := joinTranscripts (drop (resultIndex ev) (results ev)) in
      when (truthy t) (modify (set_messageInput_value t))
  end.

Definition recognition_onerror (v : variant) (code : jsstring) : M unit :=
  match v with
  | Continuous =>
      if bool_decide (code = js "not-allowed") then
        showMessage error
          (js "Please allow microphone access to use voice input.");;
        stopRecording v
      else if bool_decide (code = js "network") then
        showMessage error (js "Network error. Please try typing instead.");;
        stopRecording v
      else ret tt
  | SingleShot => stopRecording v
  end.

Definition recognition_onend (v : variant) : M unit :=
  match v with
  | Continuous =>
      recording <- get isRecording;;
      n <- get restartAttempts;;
      if recording && Nat.ltb n MAX_RESTART_ATTEMPTS then
        modify (set_restartAttempts (S n));;
        _ <- setTimeout RestartTimeout;;
        ret tt
      else if Nat.leb MAX_RESTART_ATTEMPTS n then stopRecording v
      else ret tt
  | SingleShot =>
      stopRecording v;;
      text <- get (λ s, trim (messageInput_value s));;
      when (truthy text) (sendMessage text)
  end.

(** The callback of the 100 ms restart timer; [throws] tells whether
    [recognition.start()] raises. *)
Definition restartTimeout (v : variant) (throws : bool) : M unit :=
  recording <- get isRecording;;
  r <- get recognition;;
  when (recording && r)
    (emit RecognitionStart;;
     when throws (stopRecording v)).

(** ** Event listeners *)

Definition sendBtn_click : M unit :=
  text <- get messageInput_value;;
  sendMessage text.

Definition messageInput_keypress (key : jsstring) : M unit :=
  when (bool_decide (key = js "Enter"))
    (text <- get messageInput_value;;
     sendMessage text).

Definition apology : jsstring :=
  js "I did not hear anything. Please try speaking again.".

Definition micBtn_click (v : variant) : M unit :=
  recording <- get isRecording;;
  match v with
  | Continuous =>
      if recording then
        text <- get (λ s, trim (messageInput_value s));;
        stopRecording v;;
        if truthy text then sendMessage text
        else
          modify (set_messageInput_placeholder
                    (js "No speech detected. Please try again."));;
          speak apology
      else
        modify (set_messageInput_value []);;
        modify (set_messageInput_placeholder (js "Listening... Speak now"));;
        startRecording v
  | SingleShot =>
      if recording then stopRecording v else startRecording v
  end.

Definition quickBtn_click (text : jsstring) : M unit :=
  if bool_decide (text = js "Can you say that again?") then
    last <- get lastResponse;;
    if truthy last then speak last
    else speak (js "I haven't said anything yet. How can I help you today?")
  else sendMessage text.

Definition speakSlowlyBtn_click : M unit :=
  modify (λ s, set_speakSlowly (negb (speakSlowly s)) s);;
  modify (λ s, set_speakSlowlyBtn_active (speakSlowly s) s);;
  slow <- get speakSlowly;;
  speak (if slow then js "I will speak more slowly now."
         else js "I will speak at normal speed.").

Definition readLastBtn_click : M unit :=
  last <- get lastResponse;;
  if truthy last then speak last
  else speak (js "I haven't answered anything yet. How can I help you?").


Definition humanHelpModal_click (onBackdrop : bool) : M unit :=
  when onBackdrop hideHumanHelpModal.

(** ** Events *)

Inductive Event :=
| StartBtnClick
| SendBtnClick
| MessageInputKeypress (key : jsstring)
| MessageInputFocus
| MessageInputEdit (text : jsstring)
| PhoneInputEdit (text : jsstring)
| MicBtnClick
| QuickBtnClick (text : jsstring)
| SpeakSlowlyBtnClick
| ReadLastBtnClick
| HumanHelpBtnClick
| ConfirmHelpBtnClick
| CancelHelpBtnClick
| HumanHelpModalClick (onBackdrop : bool)
| RecognitionOnStart
| RecognitionOnResult (ev : ResultEvent)
| RecognitionOnError (code : jsstring)
| RecognitionOnEnd
| TimerFires (id : positive) (throws : bool)
| SocketOnOpen
| SocketOnMessage (data : option Frame)
| SocketOnError
| SocketOnClose
| FetchSettles (rid : positive) (r : Response).

(** A timer that fires leaves the queue and runs its callback. *)
Definition timerFires (v : variant) (id : positive) (throws : bool) : M unit :=
  cb <- get (λ s, timers s !! id);;
  match cb with
  | None => ret tt
  | Some c =>
      clearTimeout id;;
      match c with
      | SafetyTimeout => safetyTimeout v
      | RestartTimeout => restartTimeout v throws
      end
  end.

(** A request that settles resumes the function awaiting it. *)
Definition fetchSettles (v : variant) (rid : positive) (r : Response) : M unit :=
  k <- get (λ s, pending s !! rid);;
  match k with
  | None => ret tt
  | Some c =>
      modify (λ s, set_pending (delete rid (pending s)) s);;
      match c with
      | AwaitStartSession => startSession_settled v r
      | AwaitSendMessage => sendMessage_settled v r
      | AwaitHumanHelp => requestHumanHelp_settled v r
      end
  end.

(** Recognition events only exist once the recogniser does, socket events
    once a socket does. *)
Definition step (v : variant) (e : Event) : M unit :=
  match e with
  | StartBtnClick => startSession
  | SendBtnClick => sendBtn_click
  | MessageInputKeypress key => messageInput_keypress key
  | MessageInputFocus => stopSpeaking
  | MessageInputEdit text => modify (set_messageInput_value text)
  | PhoneInputEdit text => modify (set_phoneInput_value text)
  | MicBtnClick => micBtn_click v
  | QuickBtnClick text => quickBtn_click text
  | SpeakSlowlyBtnClick => speakSlowlyBtn_click
  | ReadLastBtnClick => readLastBtn_click
  | HumanHelpBtnClick => showHumanHelpModal
  | ConfirmHelpBtnClick => requestHumanHelp
  | CancelHelpBtnClick => hideHumanHelpModal
  | HumanHelpModalClick onBackdrop => humanHelpModal_click onBackdrop
  | RecognitionOnStart =>
      r <- get recognition;; when r (recognition_onstart v)
  | RecognitionOnResult ev =>
      r <- get recognition;; when r (recognition_onresult v ev)
  | RecognitionOnError code =>
      r <- get recognition;; when r (recognition_onerror v code)
  | RecognitionOnEnd =>
      r <- get recognition;; when r (recognition_onend v)
  | TimerFires id throws => timerFires v id throws
  | SocketOnOpen => setReadyState OPEN
  | SocketOnMessage data =>
      sock <- get socket;;
      when (present sock) (socket_onmessage data)
  | SocketOnError =>
      sock <- get socket;;
      when (present sock) (socket_onerror v)
  | SocketOnClose => setReadyState CLOSED
  | FetchSettles rid r => fetchSettles v rid r
  end.

(** Events handled one after the other. *)
Fixpoint run (v : variant) (es : list Event) : M unit :=
  match es with
  | [] => ret tt
  | e :: es' => step v e;; run v es'
  end.

(** ** Initialisation *)

Definition init (v : variant) : M unit :=
  _ <- initSpeechRecognition v;;
  ret tt.

(** The state in which the script has just been evaluated: its variables
    hold their initial values, nothing is queued; what the page shows and
    which capabilities the browser has are left open. *)
Definition evaluated (s : State) : Prop :=
  sessionId s = null ∧ socket s = None ∧ isRecording s = false
  ∧ recognition s = false ∧ speakSlowly s = false ∧ lastResponse s = []
  ∧ recordingTimeout s = None ∧ restartAttempts s = 0%nat
  ∧ streamingMessageEl s = None ∧ streamingText s = []
  ∧ timers s = ∅ ∧ pending s = ∅.

(** A page with an empty log and empty fields, in a browser with the given
    capabilities. *)
Definition page (synth recog : bool) : State :=
  mkState null None false false false [] None 0%nat None []
    [] [] [] true true false [] false true false true [] false
    synth recog ∅ 1%positive ∅ 1%positive.

Inductive reachable (v : variant) : State → Prop :=
| reachable_init s :
    evaluated s → reachable v (state_of (init v s))
| reachable_step s e :
    reachable v s → reachable v (state_of (step v e s)).

(** Socket frames as the service sends them. *)
Definition chunkFrame (c : jsstring) : Frame := mkFrame None None (Some c) false.
Definition doneFrame : Frame := mkFrame None None None true.
Definition errorFrame (e : jsstring) : Frame := mkFrame (Some e) None None false.
Definition statsFrame : Frame := mkFrame None (Some (js "stats")) None false.

(** Frames handled one after the other. *)
Fixpoint receive (fs : list Frame) : M unit :=
  match fs with
  | [] => ret tt
  | f :: fs' => socket_onmessage (Some f);; receive fs'
  end.


Global Arguments js : simpl never.

(** ** Observations *)

Definition rate (s : State) : Rate := if speakSlowly s then Rate07 else Rate09.

(** What [speak text] hands to the synthesis engine in state [s]. *)
Definition spoken (s : State) (text : jsstring) : list Effect :=
  if speechSynthesis s then [SynthCancel; SynthSpeak text (rate s)] else [].

(** The messages dispatched to the service, over the socket or by HTTP. *)
Definition sentMessage (e : Effect) : option jsstring :=
  match e with
  | SocketSend (BodyMessage m) | SocketSend (BodyChat m _ _) => Some m
  | Fetch _ _ (BodyMessage m) | Fetch _ _ (BodyChat m _ _) => Some m
  | _ => None
  end.

Definition sent (es : list Effect) : list jsstring := omap sentMessage es.

(** The texts handed to the synthesis engine. *)
Definition utterance (e : Effect) : option jsstring :=
  match e with
  | SynthSpeak text _ => Some text
  | _ => None
  end.

Definition utterances (es : list Effect) : list jsstring := omap utterance es.

(** The HTTP requests issued. *)
Definition isFetch (e : Effect) : bool :=
  match e with
  | Fetch _ _ _ => true
  | _ => false
  end.

(** The sockets opened. *)
Definition isNewWebSocket (e : Effect) : bool :=
  match e with
  | NewWebSocket _ => true
  | _ => false
  end.

(** A reply is being streamed into the bubble at index [i]. *)
Definition streaming (s : State) (i : nat) : Prop :=
  streamingMessageEl s = Some i
  ∧ messages s !! i = Some (mkMessageEl assistant (streamingText s)).

(** [keeps R m]: running [m] takes a state to one related to it by [R]. *)
Definition keeps (R : State → State → Prop) {A} (m : M A) : Prop :=
  ∀ s, R s (m s).1.2.

Definition sameSession (s s' : State) : Prop := sessionId s' = sessionId s.
Definition sameLast (s s' : State) : Prop := lastResponse s' = lastResponse s.

(** The counter of restarts stays within its bound. *)
Definition restartBounded (s : State) : Prop :=
  (restartAttempts s ≤ MAX_RESTART_ATTEMPTS)%nat.

(** A pending safety timer is the one [recordingTimeout] names, and it is
    only pending while recording. *)
Definition safetyTimerOwned (s : State) : Prop :=
  ∀ id, timers s !! id = Some SafetyTimeout →
        isRecording s = true ∧ recordingTimeout s = Some id.

(** The single-shot script has neither counter nor timers: the fields
    that stand for them keep their initial values. *)
Definition neverTimed (s : State) : Prop :=
  restartAttempts s = 0%nat ∧ recordingTimeout s = None ∧ timers s = ∅.

Definition preserves (I : State → Prop) (s s' : State) : Prop := I s → I s'.


Definition nothingYet : jsstring :=
  js "I haven't answered anything yet. How can I help you?".

(** The state once the page has loaded, and after a run of events. *)
Definition loaded (v : variant) : State := state_of (init v (page true true)).

Definition after (v : variant) (es : list Event) (s : State) : State :=
  state_of (run v es s).


(** ** The voice of an utterance

    [speak] picks the voice of its utterance from
    [speechSynthesis.getVoices()]; a voice is modelled by the two fields
    the scripts read. *)
Record Voice := mkVoice {
  lang : jsstring;
  name : jsstring
}.

(** [String.prototype.startsWith] and [String.prototype.includes]. *)
Fixpoint startsWith (s p : jsstring) : bool :=
  match p, s with
  | [], _ => true
  | _ :: _, [] => false
  | c :: p', d :: s' => (c =? d) && startsWith s' p'
  end.

Fixpoint includes (s sub : jsstring) : bool :=
  startsWith s sub
  || match s with
     | [] => false
     | _ :: r => includes r sub
     end.

(** [Array.prototype.find]. *)
Fixpoint find {A} (p : A → bool) (l : list A) : option A :=
  match l with
  | [] => None
  | x :: r => if p x then Some x else find p r
  end.

Definition english (x : Voice) : bool := startsWith (lang x) (js "en").

Definition named (x : Voice) : bool :=
  includes (name x) (js "Natural") || includes (name x) (js "Samantha")
  || includes (name x) (js "Karen").

(** The [preferredVoice] of [speak]; [None] leaves the utterance with the
    platform's default voice. *)
Definition preferredVoice (v : variant) (voices : list Voice) : option Voice :=
  match v with
  | Continuous =>
      match find (λ x, english x && named x) voices with
      | Some x => Some x
      | None => find english voices
      end
  | SingleShot => find english voices
  end.

(** ** Further observations *)

(** Every utterance in a trace comes directly after a cancel. *)
Fixpoint cancelsFirst (es : list Effect) : bool :=
  match es with
  | [] => true
  | SynthSpeak _ _ :: _ => false
  | SynthCancel :: r =>
      match r with
      | SynthSpeak _ _ :: r' => cancelsFirst r'
      | _ => cancelsFirst r
      end
  | _ :: r => cancelsFirst r
  end.

(** The sockets constructed and the calls of [close()] in a trace. *)
Definition isSocketClose (e : Effect) : bool :=
  match e with
  | SocketClose => true
  | _ => false
  end.

Definition opened (es : list Effect) : nat :=
  length (filter isNewWebSocket es).

Definition closed (es : list Effect) : nat :=
  length (filter isSocketClose es).

(** The script holds one socket or none. *)
Definition held (s : State) : nat := if present (socket s) then 1%nat else 0%nat.

(** [keepsE R m]: running [m] relates the state before, the calls made and
    the state after by [R]. *)
Definition keepsE (R : State → list Effect → State → Prop) {A} (m : M A)
  : Prop :=
  ∀ s, R s (m s).2 (m s).1.2.

Definition socketBalanced (s : State) (es : list Effect) (s' : State) : Prop :=
  (opened es + held s ≤ closed es + held s')%nat.


(** Every socket constructed in a trace while one is held comes directly
    after a [close()]; [h] tells whether a socket is held before the
    trace, [c] whether the call before the trace was a [close()]. *)
Fixpoint closesFirst (h c : bool) (es : list Effect) : bool :=
  match es with
  | [] => true
  | e :: r =>
      (if isNewWebSocket e then negb h || c else true)
      && closesFirst (h || isNewWebSocket e) (isSocketClose e) r
  end.

Definition socketOrdered (s : State) (es : list Effect) (s' : State) : Prop :=
  closesFirst (present (socket s)) false es = true
  ∧ present (socket s') = present (socket s) || existsb isNewWebSocket es.

Definition speechOrdered (s : State) (es : list Effect) (s' : State) : Prop :=
  cancelsFirst es = true.

Definition neverStarts (s : State) (es : list Effect) (s' : State) : Prop :=
  RecognitionStart ∉ es.

(** The bubble of the reply being streamed shows the streaming buffer,
    and the buffer is empty when no reply is being streamed. *)
Definition streamingConsistent (s : State) : Prop :=
  match streamingMessageEl s with
  | Some i => messages s !! i = Some (mkMessageEl assistant (streamingText s))
  | None => streamingText s = []
  end.

(** The element at index [i] is [m] and is not the one being streamed. *)
Definition bubbleKept (i : nat) (m : MessageEl) (s : State) : Prop :=
  messages s !! i = Some m ∧ streamingMessageEl s ≠ Some i.

Definition logGrows (s s' : State) : Prop :=
  (length (messages s) ≤ length (messages s'))%nat.

(** A browser without speech recognition: no recogniser, no recording. *)
Definition cannotRecord (s : State) : Prop :=
  SpeechRecognition s = false ∧ recognition s = false ∧ isRecording s = false.

(** While idle the restart counter is 0 and no safety timer is named. *)
Definition idleReset (s : State) : Prop :=
  isRecording s = false →
  restartAttempts s = 0%nat ∧ recordingTimeout s = None.

(** The transcripts of the final, and of the interim, results in order. *)
Definition finals (rs : list SpeechResult) : jsstring :=
  concat ((λ r, if isFinal r then transcript r else []) <$> rs).

Definition interims (rs : list SpeechResult) : jsstring :=
  concat ((λ r, if isFinal r then [] else transcript r) <$> rs).

Definition repeatPhrase : jsstring := js "Can you say that again?".
Definition nothingSaid : jsstring :=
  js "I haven't said anything yet. How can I help you today?".

Definition sameSupport (s s' : State) : Prop :=
  SpeechRecognition s' = SpeechRecognition s.

(** * Properties *)

(** ** Trimming *)

Lemma truthy_true (s : jsstring) : truthy s = true ↔ s ≠ [].
Proof. destruct s; simpl; split; congruence. Qed.


Lemma trimStart_head (s : jsstring) c r :
  trimStart s = c :: r → isWhiteSpace c = false.
Proof.
  induction s as [|a s IH]; simpl; [done|].
  destruct (isWhiteSpace a) eqn:Ha; [done|].
  intros [= <- _]. done.
Qed.

Lemma trimStart_nil (s : jsstring) :
  trimStart s = [] ↔ forallb isWhiteSpace s = true.
Proof.
  induction s as [|a s IH]; simpl; [done|].
  destruct (isWhiteSpace a); simpl; [done|]. split; discriminate.
Qed.

Lemma trimStart_blank_tail (s : jsstring) :
  forallb isWhiteSpace (trimStart s) = true → trimStart s = [].
Proof.
  destruct (trimStart s) as [|c r] eqn:E; [done|].
  simpl. rewrite (trimStart_head _ _ _ E). discriminate.
Qed.

Lemma forallb_rev {A} (p : A → bool) (l : list A) :
  forallb p (rev l) = forallb p l.
Proof.
  induction l as [|a l IH]; simpl; [done|].
  rewrite forallb_app, IH. simpl. rewrite andb_true_r. apply andb_comm.
Qed.

Lemma rev_nil_inv {A} (l : list A) : rev l = [] → l = [].
Proof.
  intros H. apply (f_equal (@length A)) in H.
  rewrite length_rev in H. by destruct l.
Qed.

(** [trim] leaves nothing exactly of the strings made of white space. *)
Lemma trim_nil (s : jsstring) :
  trim s = [] ↔ forallb isWhiteSpace s = true.
Proof.
  unfold trim, trimEnd. split.
  - intros H. apply rev_nil_inv in H. apply trimStart_nil in H.
    rewrite forallb_rev in H. apply trimStart_blank_tail in H.
    by apply trimStart_nil.
  - intros H. apply trimStart_nil in H. by rewrite H.
Qed.

Lemma trimStart_fixed (s : jsstring) c r :
  s = c :: r → isWhiteSpace c = false → trimStart s = s.
Proof. intros -> H. simpl. by rewrite H. Qed.

Lemma trimStart_suffix (s : jsstring) : ∃ p, s = p ++ trimStart s.
Proof.
  induction s as [|a s [p IH]]; simpl; [by exists []|].
  destruct (isWhiteSpace a).
  - exists (a :: p). simpl. by f_equal.
  - by exists [].
Qed.

(** What [trim] returns is empty or begins and ends with a character that
    is not white space. *)
Lemma trimStart_idem (s : jsstring) : trimStart (trimStart s) = trimStart s.
Proof.
  destruct (trimStart s) as [|c r] eqn:E; [done|].
  eapply trimStart_fixed; [done|]. by eapply trimStart_head.
Qed.

Lemma trim_idem (s : jsstring) : trim (trim s) = trim s.
Proof.
  unfold trim, trimEnd.
  set (t := trimStart s).
  destruct (trimStart (rev t)) as [|d u] eqn:Eu; [done|].
  assert (Hd : isWhiteSpace d = false) by by eapply trimStart_head.
  destruct t as [|c r] eqn:Et; [done|].
  assert (Hc : isWhiteSpace c = false) by (by eapply (trimStart_head s)).
  destruct (trimStart_suffix (rev (c :: r))) as [p Hp].
  rewrite Eu in Hp.
  (* the trimmed text starts with [c] *)
  assert (Hlast : ∃ w, rev (d :: u) = c :: w).
  { apply (f_equal (@rev N)) in Hp. rewrite rev_involutive, rev_app_distr in Hp.
    destruct (rev (d :: u)) as [|x w] eqn:Ex.
    - apply rev_nil_inv in Ex. done.
    - simpl in Hp. injection Hp as -> _. by exists w. }
  destruct Hlast as [w Hw].
  rewrite (trimStart_fixed (rev (d :: u)) c w Hw Hc).
  rewrite rev_involutive.
  by rewrite (trimStart_fixed (d :: u) d u eq_refl Hd).
Qed.

Lemma trim_truthy_idem (s : jsstring) : truthy (trim (trim s)) = truthy (trim s).
Proof. by rewrite trim_idem. Qed.

(** ** Running the monad *)

Lemma bind_run {A B} (m : M A) (k : A → M B) s a s1 e1 :
  m s = (a, s1, e1) →
  bind m k s = ((k a s1).1.1, (k a s1).1.2, e1 ++ (k a s1).2).
Proof. unfold bind. intros ->. by destruct (k a s1) as [[b s2] e2]. Qed.

Lemma bind_assoc {A B C} (m : M A) (k : A → M B) (h : B → M C) s :
  bind (bind m k) h s = bind m (λ a, bind (k a) h) s.
Proof.
  unfold bind. destruct (m s) as [[a s1] e1].
  destruct (k a s1) as [[b s2] e2]. destruct (h b s2) as [[c s3] e3].
  by rewrite (assoc app).
Qed.

Lemma bind_ext {A B} (m : M A) (k k' : A → M B) s :
  (∀ a s1, k a s1 = k' a s1) → bind m k s = bind m k' s.
Proof. intros H. unfold bind. destruct (m s) as [[a s1] e1]. by rewrite H. Qed.

Lemma ret_bind {A B} (a : A) (k : A → M B) s : bind (ret a) k s = k a s.
Proof. unfold bind, ret. by destruct (k a s) as [[b s2] e2]. Qed.

Lemma receive_app (fs gs : list Frame) s :
  receive (fs ++ gs) s = bind (receive fs) (λ _, receive gs) s.
Proof.
  revert s. induction fs as [|f fs IH]; intros s; cbn [receive app].
  - by rewrite ret_bind.
  - rewrite bind_assoc. apply bind_ext. intros _ s1. apply IH.
Qed.

(** ** Streaming *)

Lemma receive_chunks_streaming (cs : list jsstring) s i :
  streaming s i →
  receive (chunkFrame <$> cs) s =
    (tt,
     set_messages
       (<[i := mkMessageEl assistant (streamingText s ++ concat cs)]> (messages s))
       (set_streamingText (streamingText s ++ concat cs) s),
     []).
Proof.
  revert s. induction cs as [|c cs IH]; intros s [Hel Hmsg].
  - cbn [receive fmap list_fmap concat]. unfold ret.
    rewrite app_nil_r, list_insert_id by done.
    by destruct s.
  - cbn [receive fmap list_fmap concat]. destruct c as [|x c].
    + erewrite bind_run by reflexivity.
      rewrite (IH s) by done. done.
    + assert (Hstep : socket_onmessage (Some (chunkFrame (x :: c))) s =
        (tt, set_messages
               (alter (setBubble (streamingText s ++ x :: c)) i (messages s))
               (set_streamingText (streamingText s ++ x :: c) s), [])).
      { unfold socket_onmessage, updateStreamingMessage, bind, get, when,
          modify, ret. simpl. rewrite Hel. simpl. by rewrite Hel. }
      rewrite (bind_run _ _ _ _ _ _ Hstep). rewrite IH.
      * simpl. rewrite <- (assoc app).
        rewrite (list_insert_alter (alter _ _ _)), list_alter_alter_eq.
        rewrite (list_insert_alter (messages s)). done.
      * split; simpl; [done|].
        rewrite list_lookup_alter_eq, Hmsg. done.
Qed.

Lemma receive_chunks_fresh (cs : list jsstring) s :
  streamingMessageEl s = None →
  concat cs ≠ [] →
  receive (chunkFrame <$> cs) s =
    (tt,
     set_messages (messages s ++ [mkMessageEl assistant (concat cs)])
       (set_streamingText (concat cs)
          (set_streamingMessageEl (Some (length (messages s))) s)),
     []).
Proof.
  intros Hel. induction cs as [|c cs IH]; intros Hne; [done|].
  cbn [receive fmap list_fmap concat] in *. destruct c as [|x c].
  - erewrite bind_run by reflexivity. rewrite IH by done. done.
  - assert (Hstep : socket_onmessage (Some (chunkFrame (x :: c))) s =
      (tt, set_messages (messages s ++ [mkMessageEl assistant (x :: c)])
             (set_streamingText (x :: c)
                (set_streamingMessageEl (Some (length (messages s))) s)), [])).
    { unfold socket_onmessage, updateStreamingMessage, startStreamingMessage,
        bind, get, when, modify, ret. simpl. rewrite Hel. simpl.
      rewrite alter_app_r_alt by done. by rewrite Nat.sub_diag. }
    rewrite (bind_run _ _ _ _ _ _ Hstep).
    rewrite (receive_chunks_streaming cs _ (length (messages s))).
    + simpl. rewrite insert_app_r_alt by done. by rewrite Nat.sub_diag.
    + split; simpl; [done|]. by rewrite lookup_app_r, Nat.sub_diag.
Qed.

Lemma speak_run text s : speak text s = (tt, s, spoken s text).
Proof.
  unfold speak, spoken, rate, bind, get, emit, ret. by destruct (speechSynthesis s).
Qed.

(** ** The model on concrete inputs *)

Example trim_example : trim (js "  hi there ") = js "hi there".
Proof. vm_compute. reflexivity. Qed.

Example trim_blank_example : trim [9; 32; 160; 8232; 65279] = [].
Proof. vm_compute. reflexivity. Qed.

(** U+0085 and U+200B are not stripped. *)
Example trim_keeps_example : trim [133; 8203] = [133; 8203].
Proof. vm_compute. reflexivity. Qed.

Example collectTranscripts_example :
  collectTranscripts
    [mkSpeechResult (js "turn on ") true; mkSpeechResult (js "the") false;
     mkSpeechResult (js "wifi") true; mkSpeechResult (js " pl") false]
  = (js "turn on wifi", js "the pl").
Proof. vm_compute. reflexivity. Qed.

(** Sending "Hello" with no socket: one request, the user's bubble, then
    the assistant's with the text returned, spoken once. *)
Example hello_without_socket :
  let r := run Continuous
             [MessageInputEdit (js "Hello"); SendBtnClick;
              FetchSettles 1
                (Replied true (Some (mkJson (str (js "s1")) (js "Hi!") [])))]
             (loaded Continuous) in
  effects_of r =
    [Fetch 1 (js "http://localhost:8000/chat")
       (BodyChat (js "Hello") null false);
     SynthCancel; SynthSpeak (js "Hi!") Rate09]
  ∧ messages (state_of r) =
      [mkMessageEl user (js "Hello"); mkMessageEl assistant (js "Hi!")]
  ∧ sessionId (state_of r) = str (js "s1")
  ∧ lastResponse (state_of r) = js "Hi!".
Proof. vm_compute. by repeat split. Qed.

(** A session, a message over the open socket and a streamed reply. *)
Example streamed_reply :
  let r := run SingleShot
             [StartBtnClick;
              FetchSettles 1
                (Replied true (Some (mkJson (str (js "s1")) (js "Hi!") [])));
              SocketOnOpen; MessageInputEdit (js "help"); SendBtnClick;
              SocketOnMessage (Some (chunkFrame (js "Sure")));
              SocketOnMessage (Some statsFrame);
              SocketOnMessage (Some (chunkFrame (js ", ok")));
              SocketOnMessage (Some doneFrame)]
             (loaded SingleShot) in
  sent (effects_of r) = [js "Hello"; js "help"]
  ∧ utterances (effects_of r) = [js "Hi!"; js "Sure, ok"]
  ∧ messages (state_of r) =
      [mkMessageEl assistant (js "Hi!"); mkMessageEl user (js "help");
       mkMessageEl assistant (js "Sure, ok")]
  ∧ socket (state_of r) =
      Some (mkWebSocket (js "ws://localhost:8000/ws/s1") OPEN)
  ∧ lastResponse (state_of r) = js "Sure, ok".
Proof. vm_compute. by repeat split. Qed.

(** Dictation in the continuous script: the recogniser ends twice and is
    restarted, then the button stops it and sends what was heard. *)
Example dictation :
  let r := run Continuous
             [MicBtnClick; RecognitionOnStart; RecognitionOnEnd;
              TimerFires 2 false; RecognitionOnStart;
              RecognitionOnResult
                (mkResultEvent 0 [mkSpeechResult (js "my printer") true]);
              MicBtnClick; RecognitionOnEnd]
             (loaded Continuous) in
  effects_of r =
    [RecognitionStart; RecognitionStart; RecognitionStop; RecognitionAbort;
     Fetch 1 (js "http://localhost:8000/chat")
       (BodyChat (js "my printer") null false)]
  ∧ isRecording (state_of r) = false
  ∧ restartAttempts (state_of r) = 0%nat
  ∧ timers (state_of r) = ∅.
Proof. vm_compute. by repeat split. Qed.

(** ** Properties kept by every callback

    [keeps R m] says that running [m] takes a state to one related to it
    by [R]; for a reflexive and transitive [R] it is enough to look at the
    assignments [m] makes. *)

Section Keeps.
Context (R : State → State → Prop) `{!Reflexive R, !Transitive R}.

Lemma keeps_ret {A} (a : A) : keeps R (ret a).
Proof. intros s. simpl. reflexivity. Qed.

Lemma keeps_get {A} (f : State → A) : keeps R (get f).
Proof. intros s. simpl. reflexivity. Qed.

Lemma keeps_emit e : keeps R (emit e).
Proof. intros s. simpl. reflexivity. Qed.

Lemma keeps_modify f : (∀ s, R s (f s)) → keeps R (modify f).
Proof. intros H s. apply H. Qed.

Lemma keeps_bind {A B} (m : M A) (k : A → M B) :
  keeps R m → (∀ a, keeps R (k a)) → keeps R (bind m k).
Proof.
  intros Hm Hk s. unfold bind. specialize (Hm s).
  destruct (m s) as [[a s1] e1]. specialize (Hk a s1).
  destruct (k a s1) as [[b s2] e2]. simpl in *. by transitivity s1.
Qed.

Lemma keeps_when b m : keeps R m → keeps R (when b m).
Proof. intros H. destruct b; [done|]. apply keeps_ret. Qed.
End Keeps.

Ltac unfold_head m :=
  lazymatch m with
  | ?f _ _ _ _ => unfold f
  | ?f _ _ _ => unfold f
  | ?f _ _ => unfold f
  | ?f _ => unfold f
  | ?f => unfold f
  end.

(** Walk through the body of a callback; [leaf] settles an assignment and
    [known] a callback that has a lemma of its own. *)
Ltac keeps_with known leaf :=
  repeat (cbv zeta;
    lazymatch goal with
    | |- Reflexive _ => apply _
    | |- Transitive _ => apply _
    | |- keeps _ (bind _ _) => apply keeps_bind
    | |- keeps _ (ret _) => apply keeps_ret
    | |- keeps _ (get _) => apply keeps_get
    | |- keeps _ (emit _) => apply keeps_emit
    | |- keeps _ (when _ _) => apply keeps_when
    | |- keeps _ (modify _) => apply keeps_modify
    | |- keeps _ (if ?b then _ else _) => destruct b eqn:?
    | |- keeps _ (match ?x with _ => _ end) => destruct x
    | |- keeps _ ?m => first [ solve [known] | unfold_head m ]
    | |- ∀ _, _ => intros ?
    | |- _ => leaf
    end).

Local Opaque js trim.

(** *** The session identifier *)

#[local] Instance sameSession_refl : Reflexive sameSession.
Proof. by intros s. Qed.
#[local] Instance sameSession_trans : Transitive sameSession.
Proof. unfold sameSession. intros s1 s2 s3 H1 H2. congruence. Qed.

Ltac settle_leaf R :=
  unfold R, preserves; simpl; repeat case_match; simpl; try done.



(** Running a callback symbolically: unfold it and split on every test it
    makes. *)
Ltac unfold_handlers :=
  unfold step, timerFires, fetchSettles, safetyTimeout, restartTimeout,
    micBtn_click, quickBtn_click, sendBtn_click, messageInput_keypress,
    speakSlowlyBtn_click, readLastBtn_click, humanHelpModal_click,
    recognition_onstart, recognition_onresult, recognition_onerror,
    recognition_onend, startRecording, stopRecording, initSpeechRecognition,
    requestHumanHelp_settled, requestHumanHelp, hideHumanHelpModal,
    showHumanHelpModal, startSession_settled, startSession,
    sendMessage_settled, sendMessage, socket_onerror, socket_onmessage,
    setReadyState, connectWebSocket, finishStreamingMessage,
    updateStreamingMessage, startStreamingMessage, showMessage, stopSpeaking,
    speak, fetch, clearTimeout, setTimeout in *.

Ltac no_match x :=
  lazymatch x with
  | context [match _ with _ => _ end] => fail
  | _ => idtac
  end.

Ltac split_cases :=
  repeat (simpl in *; rewrite ?trim_idem in *;
          match goal with
          | |- context [match ?x with _ => _ end] =>
              no_match x;
              first [ is_var x; destruct x
                    | let E := fresh "E" in destruct x eqn:E ]
          end).

Ltac close_case :=
  try done; try congruence;
  repeat match goal with
         | H : ?x = ?c, H' : context [?x] |- _ =>
             lazymatch c with context [x] => fail | _ => idtac end;
             rewrite H in H'; simpl in H'
         end;
  try done; try congruence.

Ltac exec :=
  unfold_handlers;
  unfold spoken, rate, sent, utterances, bind, when, get, modify, emit, ret,
    state_of, effects_of in *;
  simpl in *; rewrite ?trim_idem in *;
  split_cases.

(** ** Properties of the calls every callback makes

    [keepsE R m] extends [keeps] to the trace: [R] must hold of no call at
    all and compose along a sequence. *)

Section KeepsE.
Context (R : State → list Effect → State → Prop).
Context (R_nil : ∀ s, R s [] s).
Context (R_app : ∀ s1 e1 s2 e2 s3,
                   R s1 e1 s2 → R s2 e2 s3 → R s1 (e1 ++ e2) s3).

Lemma keepsE_ret {A} (a : A) : keepsE R (ret a).
Proof. intros s. apply R_nil. Qed.

Lemma keepsE_get {A} (f : State → A) : keepsE R (get f).
Proof. intros s. apply R_nil. Qed.

Lemma keepsE_emit e : (∀ s, R s [e] s) → keepsE R (emit e).
Proof. intros H s. apply H. Qed.

Lemma keepsE_modify f : (∀ s, R s [] (f s)) → keepsE R (modify f).
Proof. intros H s. apply H. Qed.

Lemma keepsE_bind {A B} (m : M A) (k : A → M B) :
  keepsE R m → (∀ a, keepsE R (k a)) → keepsE R (bind m k).
Proof.
  intros Hm Hk s. unfold bind. specialize (Hm s).
  destruct (m s) as [[a s1] e1]. specialize (Hk a s1).
  destruct (k a s1) as [[b s2] e2]. simpl in *. by eapply R_app.
Qed.

Lemma keepsE_when b m : keepsE R m → keepsE R (when b m).
Proof. intros H. destruct b; [done|]. apply keepsE_ret. Qed.

Lemma keepsE_run v es :
  (∀ e, keepsE R (step v e)) → keepsE R (run v es).
Proof.
  intros Hstep. induction es as [|e es IH]; cbn [run].
  - apply keepsE_ret.
  - by apply keepsE_bind.
Qed.
End KeepsE.

Ltac keepsE_with nil app known leaf :=
  repeat (cbv zeta;
    lazymatch goal with
    | |- keepsE _ (bind _ _) => apply (keepsE_bind _ app)
    | |- keepsE _ (ret _) => apply (keepsE_ret _ nil)
    | |- keepsE _ (get _) => apply (keepsE_get _ nil)
    | |- keepsE _ (emit _) => apply keepsE_emit
    | |- keepsE _ (when _ _) => apply (keepsE_when _ nil)
    | |- keepsE _ (modify _) => apply keepsE_modify
    | |- keepsE _ (if ?b then _ else _) => destruct b eqn:?
    | |- keepsE _ (match ?x with _ => _ end) => destruct x
    | |- keepsE _ ?m => first [ solve [known] | unfold_head m ]
    | |- ∀ _, _ => intros ?
    | |- _ => leaf
    end).


(** ** Sending *)

(** C1. A text that is empty or made of white space only makes
    [sendMessage] return at once: nothing goes over the socket or by
    HTTP, and the state, the message log included, is left as it was.  So
    the send button and the Enter key do nothing on such an input. *)
Theorem sendMessage_blank_noop (v : variant) (text : jsstring) (s : State) :
  forallb isWhiteSpace text = true →
  sendMessage text s = (tt, s, [])
  ∧ (messageInput_value s = text →
     step v SendBtnClick s = (tt, s, [])
     ∧ step v (MessageInputKeypress (js "Enter")) s = (tt, s, [])).
Proof.
  intros Hblank. apply trim_nil in Hblank.
  assert (Hsend : sendMessage text s = (tt, s, [])).
  { unfold sendMessage. by rewrite Hblank. }
  split; [done|]. intros Hvalue. split.
  - unfold step, sendBtn_click, bind, get. simpl. by rewrite Hvalue, Hsend.
  - unfold step, messageInput_keypress, when, bind, get.
    rewrite bool_decide_eq_true_2 by done. simpl. by rewrite Hvalue, Hsend.
Qed.

Lemma sendMessage_blank_noop_witness :
  let text := [32; 9; 160; 10] in
  let s := set_messageInput_value text (page true true) in
  sendMessage text s = (tt, s, [])
  ∧ (messageInput_value s = text →
     step Continuous SendBtnClick s = (tt, s, [])
     ∧ step Continuous (MessageInputKeypress (js "Enter")) s = (tt, s, [])).
Proof. apply sendMessage_blank_noop. reflexivity. Defined.

(** ** Streamed replies *)

(** C2, as claimed, fails: a [chunk] frame carrying the empty string is
    skipped by the test [if (data.chunk)], so after such a frame and
    [done] no bubble exists, nothing is spoken and the cache still holds
    the greeting. *)
Lemma done_after_empty_chunk_counterexample :
  let greeting := mkJson (str (js "A")) (js "Hi") [] in
  let s := after Continuous
             [StartBtnClick; FetchSettles 1 (Replied true (Some greeting));
              SocketOnOpen]
             (loaded Continuous) in
  let r := receive ((chunkFrame <$> [[]]) ++ [doneFrame]) s in
  streamingMessageEl s = None
  ∧ lastResponse (state_of r) = js "Hi"
  ∧ lastResponse (state_of r) ≠ concat [[]]
  ∧ messages (state_of r) = messages s
  ∧ effects_of r = [].
Proof. vm_compute. repeat split; discriminate. Qed.

Lemma receive_empty_chunks (cs : list jsstring) s :
  concat cs = [] → receive (chunkFrame <$> cs) s = (tt, s, []).
Proof.
  induction cs as [|c cs IH]; intros Hnil; [done|].
  cbn [concat] in Hnil. apply app_eq_nil in Hnil as [-> Hnil].
  cbn [receive fmap list_fmap]. erewrite bind_run by reflexivity.
  by rewrite IH.
Qed.

Lemma concat_empty (cs : list jsstring) :
  concat cs = [] ↔ Forall (λ c, c = []) cs.
Proof.
  induction cs as [|c cs IH]; simpl; [by split|].
  rewrite Forall_cons, <- IH. split.
  - by intros [-> ->]%app_eq_nil.
  - by intros [-> ->].
Qed.

(** C2, amended. Starting with no reply in progress, chunk frames
    followed by a [done] frame act on the concatenation of the chunks in
    arrival order.  When it is not empty, that is when at least one chunk
    carries a non-empty string, one new assistant bubble shows it, it is
    what [speak] is called on, the cache holds it, and the streaming
    buffer and element are reset.  When it is empty, that is when every
    chunk is the empty string, nothing is rendered, spoken or cached: no
    call is made and the state is left as it was, the typing indicator
    (hidden) apart. *)
Theorem done_after_chunks (cs : list jsstring) (s : State) :
  streamingMessageEl s = None →
  let r := receive ((chunkFrame <$> cs) ++ [doneFrame]) s in
  (concat cs ≠ [] →
   messages (state_of r) = messages s ++ [mkMessageEl assistant (concat cs)]
   ∧ effects_of r = spoken s (concat cs)
   ∧ lastResponse (state_of r) = concat cs
   ∧ streamingText (state_of r) = []
   ∧ streamingMessageEl (state_of r) = None)
  ∧ (concat cs = [] →
     r = (tt, set_typingIndicator_hidden true s, [])
     ∧ messages (state_of r) = messages s
     ∧ effects_of r = []
     ∧ lastResponse (state_of r) = lastResponse s)
  ∧ (concat cs = [] ↔ Forall (λ c, c = []) cs).
Proof.
  intros Hel r. subst r. rewrite receive_app. split_and!; [| |apply concat_empty].
  - intros Hne.
    rewrite (bind_run _ _ _ _ _ _ (receive_chunks_fresh cs s Hel Hne)).
    cbn [receive].
    unfold socket_onmessage, finishStreamingMessage, doneFrame, bind, when,
      get, modify, ret. simpl.
    rewrite speak_run. simpl. unfold spoken, rate. simpl.
    rewrite !app_nil_r. done.
  - intros Hnil.
    rewrite (bind_run _ _ _ _ _ _ (receive_empty_chunks cs s Hnil)).
    cbn [receive].
    unfold socket_onmessage, finishStreamingMessage, doneFrame, bind, when,
      get, modify, ret. simpl. rewrite Hel. simpl. done.
Qed.

Lemma done_after_chunks_witness :
  let cs := [js "Hel"; []; js "lo"] in
  let s := page true true in
  let r := receive ((chunkFrame <$> cs) ++ [doneFrame]) s in
  messages (state_of r) = messages s ++ [mkMessageEl assistant (concat cs)]
  ∧ effects_of r = spoken s (concat cs)
  ∧ lastResponse (state_of r) = concat cs
  ∧ streamingText (state_of r) = []
  ∧ streamingMessageEl (state_of r) = None.
Proof.
  destruct (done_after_chunks [js "Hel"; []; js "lo"] (page true true))
    as (H & _ & _); [reflexivity|].
  apply H. vm_compute. discriminate.
Defined.

(** ** Starting a session *)

Lemma hasFragment_target (sid : jsval) :
  hasFragment (WS_URL ++ js "/" ++ toString sid) = hasFragment (toString sid).
Proof. unfold hasFragment. rewrite !existsb_app. by vm_compute. Qed.

(** An identifier with a [#] in it: the constructor throws inside the
    [try], so the alert is raised and no socket exists, although the
    identifier has been stored and the chat screen is shown. *)
Example startSession_fragment_example :
  let r := run Continuous
             [StartBtnClick;
              FetchSettles 1
                (Replied true (Some (mkJson (str (js "a#b")) (js "Hi") [])))]
             (loaded Continuous) in
  effects_of r =
    [Fetch 1 (js "http://localhost:8000/chat") (BodyMessage (js "Hello"));
     Alert (js "Could not connect to the service. Please try again later.")]
  ∧ sessionId (state_of r) = str (js "a#b")
  ∧ chat_active (state_of r) = true
  ∧ socket (state_of r) = None
  ∧ messages (state_of r) = []
  ∧ lastResponse (state_of r) = [].
Proof. vm_compute. by repeat split. Qed.

(** C4. [startSession], which the start button runs, issues one request,
    the greeting, and touches neither the socket nor the session
    identifier.  It resumes when that request settles and then makes no
    further request.  With a parsed body the identifier is stored first;
    then the socket held, if any, is closed and a socket is constructed
    on the path ending in that identifier, after which the greeting is
    shown and spoken; when the constructor throws, which it does exactly
    when the identifier contains a [#], the alert is raised instead and
    no socket is opened.  When the promise rejects or the body does not
    parse, the only effect is the alert, and socket and identifier are
    left as they were. *)
Theorem startSession_request_first (v : variant) (r : Response) (s s' : State) :
  let a := startSession s in
  let b := startSession_settled v r s' in
  effects_of a =
    [Fetch (nextRequest s) (API_URL ++ js "/chat") (BodyMessage (js "Hello"))]
  ∧ pending (state_of a) !! nextRequest s = Some AwaitStartSession
  ∧ socket (state_of a) = socket s
  ∧ sessionId (state_of a) = sessionId s
  ∧ step v StartBtnClick s = a
  ∧ step v (FetchSettles (nextRequest s) r) (state_of a) =
      startSession_settled v r
        (set_pending (delete (nextRequest s) (pending (state_of a)))
           (state_of a))
  ∧ filter isFetch (effects_of b) = []
  ∧ match r with
    | Replied _ (Some data) =>
        let target := WS_URL ++ js "/" ++ toString (session_id data) in
        sessionId (state_of b) = session_id data
        ∧ hasFragment target = hasFragment (toString (session_id data))
        ∧ if hasFragment target then
            socket (state_of b) = closing <$> socket s'
            ∧ effects_of b =
                (if present (socket s') then [SocketClose] else [])
                ++ [Alert (startFailedText v)]
          else
            socket (state_of b) = Some (mkWebSocket target CONNECTING)
            ∧ effects_of b =
                (if present (socket s') then [SocketClose] else [])
                ++ [NewWebSocket target]
                ++ spoken s' (response data)
    | _ =>
        effects_of b = [Alert (startFailedText v)]
        ∧ socket (state_of b) = socket s'
        ∧ sessionId (state_of b) = sessionId s'
    end.
Proof.
  cbv zeta. split_and!.
  - reflexivity.
  - simpl. apply lookup_insert_eq.
  - reflexivity.
  - reflexivity.
  - reflexivity.
  - unfold step, fetchSettles, startSession, fetch, bind, get, modify, emit,
      ret. simpl. rewrite lookup_insert_eq.
    by destruct (startSession_settled _ _ _) as [[[] s2] e2].
  - exec; close_case.
  - destruct r as [|ok [data|]]; [by exec| |by exec].
    split_and!; [by exec|apply hasFragment_target|].
    exec; split_and!; close_case; rewrite ?app_nil_r; try done.
    all: simpl; by destruct (socket s').
Qed.
(** ** The session identifier *)







(** ** The last-response cache *)

#[local] Instance sameLast_refl : Reflexive sameLast.
Proof. by intros s. Qed.
#[local] Instance sameLast_trans : Transitive sameLast.
Proof. unfold sameLast. intros s1 s2 s3 H1 H2. congruence. Qed.









(** ** Invariants of the recording lifecycle *)

#[local] Instance preserves_refl I : Reflexive (preserves I).
Proof. intros s H. exact H. Qed.
#[local] Instance preserves_trans I : Transitive (preserves I).
Proof. unfold preserves. intros s1 s2 s3 H1 H2 H. auto. Qed.

Lemma reachable_invariant (I : State → Prop) v :
  (∀ s, evaluated s → I (state_of (init v s))) →
  (∀ e, keeps (preserves I) (step v e)) →
  ∀ s, reachable v s → I s.
Proof.
  intros Hinit Hstep s Hs. induction Hs as [s Hs|s e Hs IH].
  - by apply Hinit.
  - by apply (Hstep e s).
Qed.

Lemma reachable_run v es s : reachable v s → reachable v (after v es s).
Proof.
  unfold after. revert s. induction es as [|e es IH]; intros s Hs; [done|].
  cbn [run]. unfold bind.
  destruct (step v e s) as [[[] s1] e1] eqn:Hstep.
  assert (H1 : reachable v s1).
  { replace s1 with (state_of (step v e s)) by by rewrite Hstep.
    by constructor. }
  specialize (IH s1 H1). by destruct (run v es s1) as [[[] s2] e2].
Qed.

Lemma evaluated_page synth recog : evaluated (page synth recog).
Proof. by repeat split. Qed.

Lemma reachable_loaded v : reachable v (loaded v).
Proof. apply reachable_init, evaluated_page. Qed.

Ltac not_elem :=
  let H := fresh in
  intros H; repeat (apply elem_of_cons in H as [?|H]; [discriminate|]);
  by apply elem_of_nil in H.

(** *** The restart counter *)

Ltac bounded_leaf :=
  unfold preserves, restartBounded, MAX_RESTART_ATTEMPTS in *; simpl;
  repeat case_match; simpl;
  repeat match goal with
         | H : _ && _ = true |- _ => apply andb_prop in H; destruct H
         | H : Nat.ltb _ _ = true |- _ => apply Nat.ltb_lt in H
         end;
  intros; try done; try lia.

Lemma step_restartBounded v e : keeps (preserves restartBounded) (step v e).
Proof. destruct e; by keeps_with fail bounded_leaf. Qed.

Lemma reachable_restartBounded v s : reachable v s → restartBounded s.
Proof.
  apply reachable_invariant; [|apply step_restartBounded].
  intros s0 (_ & _ & _ & _ & _ & _ & _ & H & _).
  unfold restartBounded, init.
  exec; simpl; rewrite H; unfold MAX_RESTART_ATTEMPTS; lia.
Qed.

(** C3. In every reachable state the restart counter is at most 3; and an
    end event arriving with the counter at 3 stops the recording: the
    flag is cleared, the counter is back at 0, no restart timer is
    queued and the recogniser is not started again. *)
Theorem restart_counter_bounded (s : State) :
  reachable Continuous s →
  (restartAttempts s ≤ MAX_RESTART_ATTEMPTS)%nat
  ∧ (restartAttempts s = MAX_RESTART_ATTEMPTS →
     let r := recognition_onend Continuous s in
     isRecording (state_of r) = false
     ∧ restartAttempts (state_of r) = 0%nat
     ∧ (∀ id, timers (state_of r) !! id = Some RestartTimeout →
              timers s !! id = Some RestartTimeout)
     ∧ RecognitionStart ∉ effects_of r).
Proof.
  intros Hs. split; [by apply (reachable_restartBounded Continuous)|].
  intros Hmax. unfold MAX_RESTART_ATTEMPTS in *.
  unfold recognition_onend, bind, get. simpl. rewrite Hmax. simpl.
  rewrite andb_false_r.
  exec; split_and!; simpl; try done.
  all: try (intros id Hid; by apply lookup_delete_Some in Hid as [_ ?]).
  all: not_elem.
Qed.

Lemma restart_counter_bounded_witness :
  let s := after Continuous
             [MicBtnClick; RecognitionOnStart; RecognitionOnEnd;
              RecognitionOnEnd; RecognitionOnEnd]
             (loaded Continuous) in
  restartAttempts s = MAX_RESTART_ATTEMPTS
  ∧ (restartAttempts s ≤ MAX_RESTART_ATTEMPTS)%nat
  ∧ (restartAttempts s = MAX_RESTART_ATTEMPTS →
     let r := recognition_onend Continuous s in
     isRecording (state_of r) = false
     ∧ restartAttempts (state_of r) = 0%nat
     ∧ (∀ id, timers (state_of r) !! id = Some RestartTimeout →
              timers s !! id = Some RestartTimeout)
     ∧ RecognitionStart ∉ effects_of r).
Proof.
  split; [reflexivity|].
  apply restart_counter_bounded.
  apply reachable_run, reachable_loaded.
Defined.

(** *** The safety timer *)

Lemma stopRecording_safetyTimerOwned :
  keeps (preserves safetyTimerOwned) (stopRecording Continuous).
Proof.
  intros s H id. exec; simpl; intros Hid; exfalso.
  all: try apply lookup_delete_Some in Hid as [Hne Hid].
  all: destruct (H id Hid) as [_ Hrt]; congruence.
Qed.

Lemma stopRecording_no_safetyTimer s id :
  safetyTimerOwned s →
  timers (state_of (stopRecording Continuous s)) !! id ≠ Some SafetyTimeout.
Proof.
  intros H. exec; simpl; intros Hid.
  all: try apply lookup_delete_Some in Hid as [Hne Hid].
  all: destruct (H id Hid) as [_ Hrt]; congruence.
Qed.

Lemma onstart_safetyTimerOwned :
  keeps (preserves safetyTimerOwned) (recognition_onstart Continuous).
Proof.
  intros s H id. exec; simpl; intros Hid.
  all: destruct (decide (id = nextTimer s)) as [->|Hne]; [done|].
  all: rewrite lookup_insert_ne in Hid by congruence.
  all: try apply lookup_delete_Some in Hid as [Hne' Hid].
  all: destruct (H id Hid) as [_ Hrt]; congruence.
Qed.

Lemma setTimeout_restart_safetyTimerOwned :
  keeps (preserves safetyTimerOwned) (setTimeout RestartTimeout).
Proof.
  intros s H id. exec; simpl; intros Hid.
  destruct (decide (nextTimer s = id)) as [Heq|Hne].
  - by rewrite Heq, lookup_insert_eq in Hid.
  - rewrite lookup_insert_ne in Hid by done. by apply H.
Qed.

Lemma clearTimeout_safetyTimerOwned id :
  keeps (preserves safetyTimerOwned) (clearTimeout id).
Proof.
  intros s H id'. exec; simpl; intros Hid.
  apply lookup_delete_Some in Hid as [Hne Hid]. by apply H.
Qed.

Ltac owned_known :=
  first [ apply stopRecording_safetyTimerOwned
        | apply onstart_safetyTimerOwned
        | apply setTimeout_restart_safetyTimerOwned
        | apply clearTimeout_safetyTimerOwned ].

Ltac owned_leaf :=
  unfold preserves; simpl; repeat case_match; simpl;
  try (intros H; exact H).

Lemma step_safetyTimerOwned e :
  keeps (preserves safetyTimerOwned) (step Continuous e).
Proof. destruct e; by keeps_with owned_known owned_leaf. Qed.

Lemma reachable_safetyTimerOwned s :
  reachable Continuous s → safetyTimerOwned s.
Proof.
  apply reachable_invariant; [|apply step_safetyTimerOwned].
  intros s0 (_ & _ & _ & _ & _ & _ & _ & _ & _ & _ & H & _) id.
  unfold init. exec; simpl; rewrite H, lookup_empty; done.
Qed.

(** C5. A safety timer is only ever pending while recording is active,
    so it cannot fire once recording has stopped: [stopRecording] clears
    it, and a timer that is no longer queued runs nothing.  When it fires
    the recording is stopped, and the trimmed content of the input field
    is dispatched once if it is not empty and not at all if it is. *)
Theorem safety_timer_fires (s : State) (id : positive) (throws : bool) :
  reachable Continuous s →
  (∀ id', timers s !! id' = Some SafetyTimeout →
          isRecording s = true ∧ recordingTimeout s = Some id')
  ∧ (timers s !! id = Some SafetyTimeout →
     let text := trim (messageInput_value s) in
     let r := step Continuous (TimerFires id throws) s in
     isRecording (state_of r) = false
     ∧ sent (effects_of r) = (if truthy text then [text] else [])
     ∧ ∀ id', timers (state_of r) !! id' ≠ Some SafetyTimeout)
  ∧ (timers s !! id = None →
     step Continuous (TimerFires id throws) s = (tt, s, []))
  ∧ (let r := stopRecording Continuous s in
     isRecording (state_of r) = false
     ∧ recordingTimeout (state_of r) = None
     ∧ ∀ id', timers (state_of r) !! id' ≠ Some SafetyTimeout).
Proof.
  intros Hs. pose proof (reachable_safetyTimerOwned s Hs) as Howned.
  split_and!.
  - exact Howned.
  - intros Hid. destruct (Howned id Hid) as [Hrec Hrt].
    cbv zeta. split_and!.
    + exec; close_case.
    + exec; close_case.
    + intros id'. exec; close_case; simpl; intros Hid'.
      all: repeat apply lookup_delete_Some in Hid' as [? Hid'].
      all: destruct (Howned id' Hid') as [_ Hrt']; congruence.
  - intros Hnone. unfold step, timerFires, bind, get. simpl.
    by rewrite Hnone.
  - cbv zeta. split_and!.
    + exec; close_case.
    + exec; close_case.
    + intros id'. by apply stopRecording_no_safetyTimer.
Qed.

Lemma safety_timer_fires_witness :
  let s := after Continuous
             [MicBtnClick; RecognitionOnStart;
              RecognitionOnResult
                (mkResultEvent 0 [mkSpeechResult (js " hi ") true])]
             (loaded Continuous) in
  timers s !! 1%positive = Some SafetyTimeout
  ∧ (∀ id', timers s !! id' = Some SafetyTimeout →
            isRecording s = true ∧ recordingTimeout s = Some id')
  ∧ (timers s !! 1%positive = Some SafetyTimeout →
     let text := trim (messageInput_value s) in
     let r := step Continuous (TimerFires 1 false) s in
     isRecording (state_of r) = false
     ∧ sent (effects_of r) = (if truthy text then [text] else [])
     ∧ ∀ id', timers (state_of r) !! id' ≠ Some SafetyTimeout)
  ∧ (timers s !! 1%positive = None →
     step Continuous (TimerFires 1 false) s = (tt, s, []))
  ∧ (let r := stopRecording Continuous s in
     isRecording (state_of r) = false
     ∧ recordingTimeout (state_of r) = None
     ∧ ∀ id', timers (state_of r) !! id' ≠ Some SafetyTimeout).
Proof.
  split; [reflexivity|].
  apply safety_timer_fires.
  apply reachable_run, reachable_loaded.
Defined.

(** ** Recognition errors *)

(** C6, as claimed, fails for the single-shot script, whose error handler
    stops the recording whatever the code. *)
Lemma singleShot_error_counterexample :
  let s := after SingleShot [MicBtnClick; RecognitionOnStart] (loaded SingleShot) in
  let code := js "no-speech" in
  isRecording s = true
  ∧ code ≠ js "not-allowed"
  ∧ code ≠ js "network"
  ∧ isRecording (state_of (step SingleShot (RecognitionOnError code) s)) = false.
Proof. vm_compute. repeat split; discriminate. Qed.

(** C6, amended. In the continuous script the codes [not-allowed] and
    [network] stop the recording and every other code leaves the state
    untouched, so that an end event arriving while recording with fewer
    than 3 restarts counted queues a restart; in the single-shot script
    every code stops the recording. *)
Theorem recognition_error_codes (code : jsstring) (s : State) :
  (code = js "not-allowed" ∨ code = js "network" →
   isRecording (state_of (recognition_onerror Continuous code s)) = false)
  ∧ (code ≠ js "not-allowed" → code ≠ js "network" →
     recognition_onerror Continuous code s = (tt, s, [])
     ∧ (isRecording s = true →
        (restartAttempts s < MAX_RESTART_ATTEMPTS)%nat →
        let r := recognition_onend Continuous s in
        isRecording (state_of r) = true
        ∧ restartAttempts (state_of r) = S (restartAttempts s)
        ∧ timers (state_of r) !! nextTimer s = Some RestartTimeout))
  ∧ isRecording (state_of (recognition_onerror SingleShot code s)) = false.
Proof.
  split_and!.
  - intros [-> | ->]; exec; close_case.
  - intros H1 H2. split.
    + unfold recognition_onerror.
      by rewrite !bool_decide_eq_false_2 by done.
    + intros Hrec Hlt. apply Nat.ltb_lt in Hlt.
      unfold recognition_onend, bind, get. simpl. rewrite Hrec, Hlt. simpl.
      split_and!; try done. apply lookup_insert_eq.
  - exec; close_case.
Qed.

Lemma recognition_error_codes_witness :
  let s := after Continuous [MicBtnClick; RecognitionOnStart] (loaded Continuous) in
  let r := recognition_onend Continuous s in
  recognition_onerror Continuous (js "no-speech") s = (tt, s, [])
  ∧ isRecording (state_of r) = true
  ∧ restartAttempts (state_of r) = S (restartAttempts s)
  ∧ timers (state_of r) !! nextTimer s = Some RestartTimeout.
Proof.
  set (s := after Continuous [MicBtnClick; RecognitionOnStart] (loaded Continuous)).
  destruct (recognition_error_codes (js "no-speech") s) as (_ & H & _).
  destruct H as [H1 H2]; [vm_compute; discriminate..|].
  split; [exact H1|].
  apply H2; [reflexivity|vm_compute; lia].
Defined.

(** ** Stopping a recording with the microphone button *)

(** C8, as claimed, fails for the single-shot script: its button handler
    only stops the recording, and neither it nor the end event that
    follows speaks. *)
Lemma micBtn_stop_singleShot_counterexample :
  let s := after SingleShot [MicBtnClick; RecognitionOnStart] (loaded SingleShot) in
  let r := run SingleShot [MicBtnClick; RecognitionOnEnd] s in
  isRecording s = true
  ∧ speechSynthesis s = true
  ∧ trim (messageInput_value s) = []
  ∧ isRecording (state_of r) = false
  ∧ utterances (effects_of r) = [].
Proof. vm_compute. by repeat split. Qed.

(** C8, amended. In the continuous script, clicking the button while
    recording stops the recording; if the input field is empty after
    trimming, nothing is sent, no bubble is added and [speak] is called on
    the apology (the engine hears it when there is one); otherwise the
    trimmed text is sent once and nothing is spoken.  In the single-shot
    script the click only stops the recording; the end event sends the
    trimmed text when it is not empty, and nothing is spoken. *)
Theorem micBtn_stop (s : State) :
  isRecording s = true →
  let text := trim (messageInput_value s) in
  let r := micBtn_click Continuous s in
  let r1 := micBtn_click SingleShot s in
  let r2 := recognition_onend SingleShot (state_of r1) in
  isRecording (state_of r) = false
  ∧ (if truthy text
     then sent (effects_of r) = [text] ∧ utterances (effects_of r) = []
     else sent (effects_of r) = []
          ∧ messages (state_of r) = messages s
          ∧ utterances (effects_of r) =
              (if speechSynthesis s then [apology] else []))
  ∧ isRecording (state_of r1) = false
  ∧ sent (effects_of r1) = []
  ∧ utterances (effects_of r1) = []
  ∧ messages (state_of r1) = messages s
  ∧ sent (effects_of r2) = (if truthy text then [text] else [])
  ∧ utterances (effects_of r2) = [].
Proof.
  intros Hrec. cbv zeta. split_and!; exec; close_case.
Qed.

Lemma micBtn_stop_witness :
  let s := after Continuous [MicBtnClick; RecognitionOnStart] (loaded Continuous) in
  let r := micBtn_click Continuous s in
  isRecording (state_of r) = false
  ∧ sent (effects_of r) = []
  ∧ messages (state_of r) = messages s
  ∧ utterances (effects_of r) = [apology].
Proof.
  set (s := after Continuous [MicBtnClick; RecognitionOnStart] (loaded Continuous)).
  destruct (micBtn_stop s) as (H1 & H2 & _); [reflexivity|].
  split; [exact H1|]. exact H2.
Defined.

(** ** Stopping is idempotent *)

Ltac untimed_leaf :=
  unfold preserves, neverTimed; simpl; repeat case_match; simpl;
  try (intros H; exact H);
  try (intros (? & ? & Ht); rewrite Ht, ?delete_empty; done).

Lemma step_neverTimed e : keeps (preserves neverTimed) (step SingleShot e).
Proof. destruct e; by keeps_with fail untimed_leaf. Qed.

Lemma reachable_neverTimed s : reachable SingleShot s → neverTimed s.
Proof.
  apply reachable_invariant; [|apply step_neverTimed].
  intros s0 (_ & _ & _ & _ & _ & _ & Hrt & Hn & _ & _ & Ht & _).
  unfold init, neverTimed. by exec.
Qed.

(** C9. From any state, [stopRecording] leaves the recording flag false;
    in the continuous script the restart counter is 0 and the safety
    timer is cleared and forgotten.  The single-shot script has no
    counter and no timer: the call leaves their fields alone, and in its
    reachable states the counter is 0 and nothing is queued.  A second
    call changes nothing. *)
Theorem stopRecording_idempotent (v : variant) (s : State) :
  let s1 := state_of (stopRecording v s) in
  isRecording s1 = false
  ∧ restartAttempts s1 =
      match v with Continuous => 0%nat | SingleShot => restartAttempts s end
  ∧ recordingTimeout s1 =
      match v with Continuous => None | SingleShot => recordingTimeout s end
  ∧ timers s1 =
      match v, recordingTimeout s with
      | Continuous, Some id => delete id (timers s)
      | _, _ => timers s
      end
  ∧ (reachable SingleShot s →
     let s2 := state_of (stopRecording SingleShot s) in
     restartAttempts s2 = 0%nat ∧ recordingTimeout s2 = None ∧ timers s2 = ∅)
  ∧ state_of (stopRecording v s1) = s1.
Proof.
  assert (Hshot : reachable SingleShot s →
     let s2 := state_of (stopRecording SingleShot s) in
     restartAttempts s2 = 0%nat ∧ recordingTimeout s2 = None ∧ timers s2 = ∅).
  { intros Hs. destruct (reachable_neverTimed s Hs) as (Hn & Hrt & Ht).
    cbv zeta. by exec. }
  revert Hshot.
  destruct s as [? ? ? rec ? ? rt ? ? ? ? ? ? ? ? ? ? ? ? ? ? ? ? ? ? ? ? ? ?].
  intros Hshot.
  destruct v, rt, rec; cbv zeta; split_and!; try exact Hshot;
    vm_compute; reflexivity.
Qed.
(** *** Speech never overlaps *)

Lemma cancelsFirst_app es1 es2 :
  cancelsFirst es1 = true → cancelsFirst es2 = true →
  cancelsFirst (es1 ++ es2) = true.
Proof.
  revert es2. induction es1 as [es1 IH] using (induction_ltof1 _ (@length _)).
  unfold ltof in IH. intros es2 H1 H2.
  destruct es1 as [|e r]; [done|].
  destruct e; simpl in *; try (apply IH; simpl; [lia|done..]).
  - destruct r as [|e' r']; simpl.
    + by destruct es2 as [|[] ?].
    + destruct e'; simpl in *; try (apply IH; simpl; [lia|done..]).
      * apply (IH (SynthCancel :: r')); simpl; [lia|done..].
  - done.
Qed.

Lemma speechOrdered_nil s : speechOrdered s [] s.
Proof. done. Qed.

Lemma speechOrdered_app s1 e1 s2 e2 s3 :
  speechOrdered s1 e1 s2 → speechOrdered s2 e2 s3 →
  speechOrdered s1 (e1 ++ e2) s3.
Proof. apply cancelsFirst_app. Qed.

Lemma speak_speechOrdered text : keepsE speechOrdered (speak text).
Proof. intros s. rewrite speak_run. unfold spoken. by destruct (speechSynthesis s). Qed.

Ltac speech_tac :=
  keepsE_with speechOrdered_nil speechOrdered_app
    ltac:(apply speak_speechOrdered) ltac:(by unfold speechOrdered).

Lemma step_speechOrdered v e : keepsE speechOrdered (step v e).
Proof. destruct e; by speech_tac. Qed.

Lemma cancelsFirst_lookup es i text rt :
  cancelsFirst es = true →
  es !! i = Some (SynthSpeak text rt) →
  ∃ j, i = S j ∧ es !! j = Some SynthCancel.
Proof.
  revert i. induction es as [es IH] using (induction_ltof1 _ (@length _)).
  unfold ltof in IH. intros i Hes Hi.
  assert (Htail : ∀ e r, es = e :: r → cancelsFirst r = true →
            (∀ t q, e ≠ SynthSpeak t q) →
            ∃ j, i = S j ∧ es !! j = Some SynthCancel).
  { intros e r -> Hr He. destruct i as [|k]; simpl in Hi.
    - injection Hi as ->. by destruct (He text rt).
    - destruct (IH r ltac:(simpl; lia) k Hr Hi) as (j & -> & Hj).
      by exists (S j). }
  destruct es as [|e r]; [done|].
  destruct e; simpl in Hes; try (by eapply Htail).
  - destruct r as [|e' r']; [by eapply Htail|].
    destruct e'; try (by eapply Htail).
    destruct i as [|[|k]]; simpl in Hi; [done|by exists 0%nat|].
    destruct (IH r' ltac:(simpl; lia) k Hes Hi) as (j & -> & Hj).
    by exists (S (S j)).
Qed.

(** X1. Along every run, each utterance handed to the synthesis engine
    comes directly after a cancel: speech already in progress is cut off
    before the new text is spoken. *)
Theorem speech_cancelled_first (v : variant) (es : list Event) (s : State)
    (i : nat) (text : jsstring) (rt : Rate) :
  effects_of (run v es s) !! i = Some (SynthSpeak text rt) →
  ∃ j, i = S j ∧ effects_of (run v es s) !! j = Some SynthCancel.
Proof.
  apply cancelsFirst_lookup.
  apply (keepsE_run speechOrdered speechOrdered_nil speechOrdered_app).
  apply step_speechOrdered.
Qed.

Lemma speech_cancelled_first_witness :
  let r := run Continuous
             [StartBtnClick;
              FetchSettles 1
                (Replied true (Some (mkJson (str (js "s1")) (js "Hi!") [])));
              ReadLastBtnClick]
             (loaded Continuous) in
  ∃ j, 5%nat = S j ∧ effects_of r !! j = Some SynthCancel.
Proof.
  apply (speech_cancelled_first Continuous _ (loaded Continuous) 5
           (js "Hi!") Rate09).
  reflexivity.
Defined.

(** *** One socket at a time *)

Lemma opened_app es1 es2 : opened (es1 ++ es2) = (opened es1 + opened es2)%nat.
Proof. unfold opened. by rewrite filter_app, length_app. Qed.

Lemma closed_app es1 es2 : closed (es1 ++ es2) = (closed es1 + closed es2)%nat.
Proof. unfold closed. by rewrite filter_app, length_app. Qed.

Lemma socketBalanced_nil s : socketBalanced s [] s.
Proof. unfold socketBalanced. simpl. lia. Qed.

Lemma socketBalanced_app s1 e1 s2 e2 s3 :
  socketBalanced s1 e1 s2 → socketBalanced s2 e2 s3 →
  socketBalanced s1 (e1 ++ e2) s3.
Proof.
  unfold socketBalanced. rewrite opened_app, closed_app. lia.
Qed.

Lemma connectWebSocket_socketBalanced : keepsE socketBalanced connectWebSocket.
Proof.
  intros s. unfold socketBalanced, held, opened, closed.
  exec; close_case; simpl; lia.
Qed.

Lemma setReadyState_socketBalanced r : keepsE socketBalanced (setReadyState r).
Proof.
  intros s. unfold socketBalanced, held, setReadyState, modify. simpl.
  destruct (socket s); simpl; lia.
Qed.

Ltac balance_leaf :=
  unfold socketBalanced, held, opened, closed; simpl;
  repeat (case_match; simpl in *); first [done | congruence | lia].

Ltac balance_tac :=
  keepsE_with socketBalanced_nil socketBalanced_app
    ltac:(first [ apply connectWebSocket_socketBalanced
                | apply setReadyState_socketBalanced ])
    balance_leaf.

Lemma step_socketBalanced v e : keepsE socketBalanced (step v e).
Proof. destruct e; by balance_tac. Qed.

Lemma closesFirst_after_close h c es :
  closesFirst h false es = true → closesFirst h c es = true.
Proof.
  destruct es as [|e r]; [done|]. simpl. rewrite orb_false_r.
  intros [He Hr]%andb_true_iff. rewrite Hr, andb_true_r.
  destruct (isNewWebSocket e); [|done]. by rewrite He.
Qed.

Lemma closesFirst_app h c es1 es2 :
  closesFirst h c es1 = true →
  closesFirst (h || existsb isNewWebSocket es1) false es2 = true →
  closesFirst h c (es1 ++ es2) = true.
Proof.
  revert h c. induction es1 as [|e r IH]; intros h c H1 H2; simpl in *.
  - rewrite orb_false_r in H2. by apply closesFirst_after_close.
  - apply andb_true_iff in H1 as [He Hr]. rewrite He. simpl.
    apply IH; [done|]. by rewrite <- orb_assoc.
Qed.

Lemma socketOrdered_nil s : socketOrdered s [] s.
Proof. split; [done|]. simpl. by rewrite orb_false_r. Qed.

Lemma socketOrdered_app s1 e1 s2 e2 s3 :
  socketOrdered s1 e1 s2 → socketOrdered s2 e2 s3 →
  socketOrdered s1 (e1 ++ e2) s3.
Proof.
  intros [H1 P1] [H2 P2]. split.
  - apply closesFirst_app; [done|]. by rewrite <- P1.
  - by rewrite P2, P1, existsb_app, orb_assoc.
Qed.

Lemma connectWebSocket_socketOrdered : keepsE socketOrdered connectWebSocket.
Proof.
  intros s. unfold socketOrdered. exec; close_case.
  all: simpl; destruct (socket s); simpl in *; by try split.
Qed.

Lemma setReadyState_socketOrdered r : keepsE socketOrdered (setReadyState r).
Proof.
  intros s. unfold socketOrdered, setReadyState, modify. simpl.
  by destruct (socket s).
Qed.

Ltac ordered_leaf :=
  unfold socketOrdered; simpl; rewrite ?orb_false_r;
  repeat (case_match; simpl in *); first [done | congruence].

Ltac ordered_tac :=
  keepsE_with socketOrdered_nil socketOrdered_app
    ltac:(first [ apply connectWebSocket_socketOrdered
                | apply setReadyState_socketOrdered ])
    ordered_leaf.

Lemma step_socketOrdered v e : keepsE socketOrdered (step v e).
Proof. destruct e; by ordered_tac. Qed.

Lemma closesFirst_lookup h c es i target :
  closesFirst h c es = true →
  es !! i = Some (NewWebSocket target) →
  (i = 0%nat ∧ c = true)
  ∨ (∃ j, i = S j ∧ es !! j = Some SocketClose)
  ∨ (h = false
     ∧ ∀ j target', (j < i)%nat → es !! j ≠ Some (NewWebSocket target')).
Proof.
  revert h c i. induction es as [|e r IH]; intros h c i Hes Hi; [done|].
  simpl in Hes. apply andb_true_iff in Hes as [He Hr].
  destruct i as [|k]; simpl in Hi.
  - injection Hi as ->. simpl in He.
    apply orb_true_iff in He as [Hh%negb_true_iff|Hc]; [|by left].
    right. right. split; [done|]. intros j target' Hlt. lia.
  - destruct (IH _ _ k Hr Hi) as [[-> Hc]|[(j & -> & Hj)|[Hh Hno]]].
    + right. left. exists 0%nat. split; [done|]. by destruct e.
    + right. left. by exists (S j).
    + apply orb_false_iff in Hh as [-> Hne].
      right. right. split; [done|]. intros [|j] target' Hlt; simpl.
      * intros [= ->]. done.
      * apply Hno. lia.
Qed.

(** A second session start whose identifier the constructor refuses: the
    socket held is closed and stays the one held, the alert is raised,
    and messages go by HTTP. *)
Example restart_refused_example :
  let r := run Continuous
             [StartBtnClick;
              FetchSettles 1
                (Replied true (Some (mkJson (str (js "A")) (js "Hi") [])));
              SocketOnOpen; StartBtnClick;
              FetchSettles 2
                (Replied true (Some (mkJson (str (js "a#b")) (js "Hi") [])));
              MessageInputEdit (js "hello"); SendBtnClick]
             (loaded Continuous) in
  effects_of r =
    [Fetch 1 (js "http://localhost:8000/chat") (BodyMessage (js "Hello"));
     NewWebSocket (js "ws://localhost:8000/ws/A");
     SynthCancel; SynthSpeak (js "Hi") Rate09;
     Fetch 2 (js "http://localhost:8000/chat") (BodyMessage (js "Hello"));
     SocketClose;
     Alert (js "Could not connect to the service. Please try again later.");
     Fetch 3 (js "http://localhost:8000/chat")
       (BodyChat (js "hello") (str (js "a#b")) false)]
  ∧ socket (state_of r) =
      Some (mkWebSocket (js "ws://localhost:8000/ws/A") CLOSING).
Proof. vm_compute. by split. Qed.

(** X2. Along every run, a socket is only constructed directly after a
    [close()], or as the first socket of a script that held none: the
    socket held is never replaced without being closed first.  So the
    sockets constructed never exceed the calls of [close()] by more than
    the one socket held. *)
Theorem one_socket_at_a_time (v : variant) (es : list Event) (s : State) :
  let r := run v es s in
  (∀ i target,
     effects_of r !! i = Some (NewWebSocket target) →
     (∃ j, i = S j ∧ effects_of r !! j = Some SocketClose)
     ∨ (socket s = None
        ∧ ∀ j target', (j < i)%nat →
            effects_of r !! j ≠ Some (NewWebSocket target')))
  ∧ (opened (effects_of r) + held s
     ≤ closed (effects_of r) + held (state_of r))%nat
  ∧ (socket s = None →
     (opened (effects_of r) ≤ S (closed (effects_of r)))%nat).
Proof.
  assert (H : socketBalanced s (effects_of (run v es s)) (state_of (run v es s))).
  { apply (keepsE_run socketBalanced socketBalanced_nil socketBalanced_app).
    apply step_socketBalanced. }
  assert (Ho : socketOrdered s (effects_of (run v es s)) (state_of (run v es s))).
  { apply (keepsE_run socketOrdered socketOrdered_nil socketOrdered_app).
    apply step_socketOrdered. }
  cbv zeta. split_and!.
  - intros i target Hi. destruct Ho as [Ho _].
    destruct (closesFirst_lookup _ _ _ _ _ Ho Hi) as [[_ ?]|[?|[Hh Hno]]];
      [done|by left|].
    right. split; [|done]. by destruct (socket s).
  - exact H.
  - intros Hnone. unfold socketBalanced, held in H. rewrite Hnone in H.
    simpl in H. destruct (present _); lia.
Qed.

(** *** The streamed bubble *)

Lemma showMessage_streamingConsistent type text :
  keeps (preserves streamingConsistent) (showMessage type text).
Proof.
  intros s. unfold preserves, streamingConsistent, showMessage, modify. simpl.
  destruct (streamingMessageEl s) as [i|]; [|done].
  intros H. rewrite lookup_app_l; [done|]. by eapply lookup_lt_Some.
Qed.

Lemma updateStreamingMessage_streamingConsistent chunk :
  keeps (preserves streamingConsistent) (updateStreamingMessage chunk).
Proof.
  intros s. unfold preserves, streamingConsistent, updateStreamingMessage,
    startStreamingMessage, bind, get, when, modify, ret.
  destruct (streamingMessageEl s) as [i|] eqn:Hel; simpl; rewrite ?Hel; simpl.
  - intros H. by rewrite Hel, list_lookup_alter_eq, H.
  - intros _. rewrite list_lookup_alter_eq.
    by rewrite lookup_app_r, Nat.sub_diag.
Qed.

Lemma finishStreamingMessage_streamingConsistent :
  keeps (preserves streamingConsistent) finishStreamingMessage.
Proof. intros s. unfold preserves, streamingConsistent. exec; close_case. Qed.

Ltac streaming_tac :=
  keeps_with
    ltac:(first [ apply showMessage_streamingConsistent
                | apply updateStreamingMessage_streamingConsistent
                | apply finishStreamingMessage_streamingConsistent ])
    ltac:(unfold preserves; simpl; try (intros H; exact H)).

Lemma step_streamingConsistent v e :
  keeps (preserves streamingConsistent) (step v e).
Proof. destruct e; by streaming_tac. Qed.

(** X3. In every reachable state of either script, the bubble of the
    reply being streamed shows exactly the streaming buffer and is an
    assistant bubble, and when no reply is being streamed the buffer is
    empty. *)
Theorem streamed_bubble_shows_buffer (v : variant) (s : State) :
  reachable v s →
  match streamingMessageEl s with
  | Some i => messages s !! i = Some (mkMessageEl assistant (streamingText s))
  | None => streamingText s = []
  end.
Proof.
  apply (reachable_invariant streamingConsistent);
    [|apply step_streamingConsistent].
  intros s0 (_ & _ & _ & _ & _ & _ & _ & _ & Hel & Htext & _).
  unfold streamingConsistent, init. exec; close_case.
Qed.

Lemma streamed_bubble_shows_buffer_witness :
  let s := after SingleShot
             [StartBtnClick;
              FetchSettles 1
                (Replied true (Some (mkJson (str (js "s1")) (js "Hi!") [])));
              SocketOnOpen; MessageInputEdit (js "help"); SendBtnClick;
              SocketOnMessage (Some (chunkFrame (js "Sure")));
              SocketOnError;
              SocketOnMessage (Some (chunkFrame (js ", ok")))]
             (loaded SingleShot) in
  streamingMessageEl s = Some 2%nat
  ∧ match streamingMessageEl s with
    | Some i =>
        messages s !! i = Some (mkMessageEl assistant (streamingText s))
    | None => streamingText s = []
    end.
Proof.
  split; [reflexivity|].
  apply (streamed_bubble_shows_buffer SingleShot).
  apply reachable_run, reachable_loaded.
Defined.

Lemma errorFrame_run err s :
  truthy err = true →
  socket_onmessage (Some (errorFrame err)) s =
    (tt,
     set_typingIndicator_hidden true
       (set_messages (messages s ++ [mkMessageEl error err]) s),
     []).
Proof.
  intros H. unfold socket_onmessage, errorFrame, showMessage, bind, modify.
  simpl. by rewrite H.
Qed.

Lemma doneFrame_run s i :
  streamingMessageEl s = Some i →
  socket_onmessage (Some doneFrame) s =
    (tt,
     set_typingIndicator_hidden true
       (set_streamingText []
          (set_streamingMessageEl None (set_lastResponse (streamingText s) s))),
     spoken s (streamingText s)).
Proof.
  intros H.
  unfold socket_onmessage, doneFrame, finishStreamingMessage, bind, when, get,
    modify, ret. simpl. rewrite H. simpl. rewrite speak_run. simpl.
  by rewrite !app_nil_r.
Qed.

(** X4. An error frame in the middle of a streamed reply adds its error
    bubble but does not end the reply: the chunks that follow extend the
    same assistant bubble, and [done] speaks and caches the text of the
    chunks before and after the error together. *)
Theorem reply_survives_error (cs1 cs2 : list jsstring) (err : jsstring)
    (s : State) :
  streamingMessageEl s = None →
  concat cs1 ≠ [] →
  truthy err = true →
  let r := receive ((chunkFrame <$> cs1) ++ [errorFrame err]
                    ++ (chunkFrame <$> cs2) ++ [doneFrame]) s in
  messages (state_of r) =
    messages s ++ [mkMessageEl assistant (concat cs1 ++ concat cs2);
                   mkMessageEl error err]
  ∧ effects_of r = spoken s (concat cs1 ++ concat cs2)
  ∧ lastResponse (state_of r) = concat cs1 ++ concat cs2
  ∧ streamingText (state_of r) = []
  ∧ streamingMessageEl (state_of r) = None.
Proof.
  intros Hel Hne Herr r. subst r.
  set (n := length (messages s)).
  set (s1 := set_messages (messages s ++ [mkMessageEl assistant (concat cs1)])
               (set_streamingText (concat cs1)
                  (set_streamingMessageEl (Some n) s))).
  set (s2 := set_typingIndicator_hidden true
               (set_messages (messages s1 ++ [mkMessageEl error err]) s1)).
  assert (H2 : streaming s2 n).
  { split; [done|]. unfold s2, s1, n. simpl.
    rewrite <- (assoc app (messages s)).
    by rewrite lookup_app_r, Nat.sub_diag. }
  set (s3 := set_messages
               (<[n := mkMessageEl assistant (streamingText s2 ++ concat cs2)]>
                  (messages s2))
               (set_streamingText (streamingText s2 ++ concat cs2) s2)).
  assert (H3 : streamingMessageEl s3 = Some n) by done.
  assert (Hrun : receive ((chunkFrame <$> cs1) ++ [errorFrame err]
                          ++ (chunkFrame <$> cs2) ++ [doneFrame]) s =
                 (tt,
                  set_typingIndicator_hidden true
                    (set_streamingText []
                       (set_streamingMessageEl None
                          (set_lastResponse (streamingText s3) s3))),
                  spoken s3 (streamingText s3))).
  { rewrite receive_app.
    rewrite (bind_run _ _ _ _ _ _ (receive_chunks_fresh cs1 s Hel Hne)).
    fold n. fold s1. cbn [fst snd app receive].
    rewrite (bind_run _ _ _ _ _ _ (errorFrame_run err s1 Herr)).
    fold s2. cbn [fst snd app].
    rewrite receive_app.
    rewrite (bind_run _ _ _ _ _ _ (receive_chunks_streaming cs2 s2 n H2)).
    fold s3. cbn [fst snd app receive].
    rewrite (bind_run _ _ _ _ _ _ (doneFrame_run s3 n H3)).
    cbn [fst snd app ret]. by rewrite app_nil_r. }
  rewrite Hrun. unfold state_of, effects_of. cbn [fst snd].
  split_and!; try done.
  unfold s3, s2, s1, n. simpl.
  rewrite <- (assoc app (messages s)). simpl.
  rewrite insert_app_r_alt by done. by rewrite Nat.sub_diag.
Qed.

Lemma reply_survives_error_witness :
  let cs1 := [js "Hel"] in
  let cs2 := [js "lo"] in
  let err := js "timeout" in
  let s := page true true in
  let r := receive ((chunkFrame <$> cs1) ++ [errorFrame err]
                    ++ (chunkFrame <$> cs2) ++ [doneFrame]) s in
  messages (state_of r) =
    messages s ++ [mkMessageEl assistant (concat cs1 ++ concat cs2);
                   mkMessageEl error err]
  ∧ effects_of r = spoken s (concat cs1 ++ concat cs2)
  ∧ lastResponse (state_of r) = concat cs1 ++ concat cs2
  ∧ streamingText (state_of r) = []
  ∧ streamingMessageEl (state_of r) = None.
Proof.
  apply (reply_survives_error [js "Hel"] [js "lo"] (js "timeout")
           (page true true)).
  - reflexivity.
  - vm_compute. discriminate.
  - reflexivity.
Defined.

(** *** The message log *)

#[local] Instance logGrows_refl : Reflexive logGrows.
Proof. intros s. unfold logGrows. lia. Qed.
#[local] Instance logGrows_trans : Transitive logGrows.
Proof. unfold logGrows. intros s1 s2 s3 H1 H2. lia. Qed.

Ltac grows_leaf :=
  unfold logGrows; simpl; repeat case_match; simpl;
  rewrite ?length_app, ?length_alter; simpl; lia.

Lemma step_logGrows v e : keeps logGrows (step v e).
Proof. destruct e; by keeps_with fail grows_leaf. Qed.

Ltac kept_leaf :=
  unfold preserves, bubbleKept; simpl;
  first
    [ intros H; exact H
    | let Hm := fresh "Hm" in
      let Hne := fresh "Hne" in
      intros [Hm Hne]; repeat case_match; simpl; split;
      rewrite ?list_lookup_alter_ne by congruence;
      rewrite ?lookup_app_l by (by eapply lookup_lt_Some);
      try done; try congruence;
      try (intros [= <-]; apply lookup_lt_Some in Hm; lia) ].

Lemma step_bubbleKept i m v e : keeps (preserves (bubbleKept i m)) (step v e).
Proof. destruct e; by keeps_with fail kept_leaf. Qed.

(** X5. No event removes a bubble from the log or changes one, the bubble
    of the reply being streamed apart: what was shown at an index stays
    shown there, and the log never gets shorter. *)
Theorem bubbles_stay (v : variant) (e : Event) (s : State) (i : nat)
    (m : MessageEl) :
  messages s !! i = Some m →
  streamingMessageEl s ≠ Some i →
  messages (state_of (step v e s)) !! i = Some m
  ∧ (length (messages s) ≤ length (messages (state_of (step v e s))))%nat.
Proof.
  intros Hm Hne. split; [|apply step_logGrows].
  by apply (step_bubbleKept i m v e s).
Qed.

Lemma bubbles_stay_witness :
  let s := after Continuous
             [MessageInputEdit (js "Hello"); SendBtnClick] (loaded Continuous) in
  let e := FetchSettles 1 Rejected in
  messages (state_of (step Continuous e s)) !! 0%nat =
    Some (mkMessageEl user (js "Hello"))
  ∧ (length (messages s)
     ≤ length (messages (state_of (step Continuous e s))))%nat.
Proof.
  apply bubbles_stay; [reflexivity|discriminate].
Defined.

(** *** When the recogniser is started *)

Lemma neverStarts_nil s : neverStarts s [] s.
Proof. unfold neverStarts. apply not_elem_of_nil. Qed.

Lemma neverStarts_app s1 e1 s2 e2 s3 :
  neverStarts s1 e1 s2 → neverStarts s2 e2 s3 → neverStarts s1 (e1 ++ e2) s3.
Proof. unfold neverStarts. rewrite elem_of_app. tauto. Qed.

Ltac starts_leaf :=
  unfold neverStarts; first [ apply not_elem_of_nil | not_elem ].

Ltac starts_tac :=
  keepsE_with neverStarts_nil neverStarts_app fail starts_leaf.

Lemma sendMessage_neverStarts text : keepsE neverStarts (sendMessage text).
Proof. by starts_tac. Qed.

Lemma stopRecording_neverStarts v : keepsE neverStarts (stopRecording v).
Proof. by starts_tac. Qed.

Lemma step_neverStarts v e :
  e ≠ MicBtnClick → (∀ id throws, e ≠ TimerFires id throws) →
  keepsE neverStarts (step v e).
Proof.
  intros H1 H2. destruct e; try done; try (by starts_tac).
  by edestruct H2.
Qed.

(** X6. [recognition.start()] is only ever called by a click on the
    microphone button while idle, or by a restart timer that fires while
    recording is active and the recogniser exists; no other callback
    starts the recogniser, and a restart timer that fires after a stop
    does not start it. *)
Theorem recogniser_started_by (v : variant) (e : Event) (s : State) :
  RecognitionStart ∈ effects_of (step v e s) →
  (e = MicBtnClick ∧ isRecording s = false)
  ∨ (∃ id throws, e = TimerFires id throws
       ∧ timers s !! id = Some RestartTimeout
       ∧ isRecording s = true ∧ recognition s = true).
Proof.
  intros Hin.
  destruct e;
    try (exfalso; eapply (step_neverStarts v); [| |exact Hin]; done).
  - left. split; [done|].
    destruct (isRecording s) eqn:Hrec; [exfalso|done].
    revert Hin. unfold step, micBtn_click, bind, get. simpl. rewrite Hrec.
    destruct v.
    + pose proof (stopRecording_neverStarts Continuous s) as Hstop.
      unfold neverStarts in Hstop.
      destruct (stopRecording Continuous s) as [[[] s1] e1]. simpl in *.
      destruct (truthy (trim (messageInput_value s))).
      * pose proof (sendMessage_neverStarts (trim (messageInput_value s)) s1)
          as Hsend. unfold neverStarts in Hsend.
        destruct (sendMessage _ s1) as [[[] s2] e2]. simpl in *.
        rewrite elem_of_app. tauto.
      * unfold modify. simpl. rewrite speak_run. simpl.
        rewrite elem_of_app. intros [?|Hs]; [tauto|].
        unfold spoken in Hs. destruct (speechSynthesis _); revert Hs; not_elem.
    + pose proof (stopRecording_neverStarts SingleShot s) as Hstop.
      unfold neverStarts in Hstop.
      by destruct (stopRecording SingleShot s) as [[[] s1] e1].
  - right. exists id, throws. split; [done|].
    revert Hin. unfold step, timerFires, bind, get. simpl.
    destruct (timers s !! id) as [[]|] eqn:Hid; simpl.
    + intros Hin. exfalso. revert Hin.
      unfold clearTimeout, safetyTimeout, bind, get, when, modify. simpl.
      destruct (isRecording s); simpl; [|not_elem].
      pose proof (stopRecording_neverStarts v
                    (set_timers (delete id (timers s)) s)) as Hstop.
      unfold neverStarts in Hstop.
      destruct (stopRecording v _) as [[[] s1] e1]. simpl in *.
      destruct (truthy (trim (messageInput_value s1))).
      * pose proof (sendMessage_neverStarts (trim (messageInput_value s1)) s1)
          as Hsend. unfold neverStarts in Hsend.
        destruct (sendMessage _ s1) as [[[] s2] e2]. simpl in *.
        rewrite !elem_of_app. tauto.
      * unfold ret. simpl. rewrite !elem_of_app.
        intros [?|H]; [tauto|]. revert H. not_elem.
    + unfold clearTimeout, restartTimeout, bind, get, when, modify. simpl.
      destruct (isRecording s), (recognition s); simpl; try done.
      all: intros H; exfalso; revert H; not_elem.
    + not_elem.
Qed.

Lemma recogniser_started_by_witness :
  let s := after Continuous [MicBtnClick; RecognitionOnStart; RecognitionOnEnd]
             (loaded Continuous) in
  let e := TimerFires 2 false in
  (e = MicBtnClick ∧ isRecording s = false)
  ∨ (∃ id throws, e = TimerFires id throws
       ∧ timers s !! id = Some RestartTimeout
       ∧ isRecording s = true ∧ recognition s = true).
Proof.
  apply (recogniser_started_by Continuous).
  vm_compute. apply list_elem_of_here.
Defined.

(** *** A browser without speech recognition *)

#[local] Instance sameSupport_refl : Reflexive sameSupport.
Proof. by intros s. Qed.
#[local] Instance sameSupport_trans : Transitive sameSupport.
Proof. unfold sameSupport. intros s1 s2 s3 H1 H2. congruence. Qed.

Lemma step_sameSupport v e : keeps sameSupport (step v e).
Proof. destruct e; by keeps_with fail ltac:(settle_leaf sameSupport). Qed.

Lemma initSpeechRecognition_cannotRecord v :
  keeps (preserves cannotRecord) (initSpeechRecognition v).
Proof.
  intros s (Hsup & Hrec & Hrecording). unfold cannotRecord.
  exec; close_case.
Qed.

Ltac cannot_tac :=
  keeps_with ltac:(apply initSpeechRecognition_cannotRecord)
    ltac:(unfold preserves, cannotRecord; simpl; repeat case_match; simpl;
          intros (? & ? & ?); done).

Lemma step_cannotRecord v e : keeps (preserves cannotRecord) (step v e).
Proof.
  destruct e; try (by cannot_tac).
  all: intros s (Hsup & Hrec & Hrecording); unfold cannotRecord.
  all: unfold step, bind, get, when; simpl; by rewrite Hrec.
Qed.

Lemma reachable_cannotRecord v s :
  reachable v s → SpeechRecognition s = false → cannotRecord s.
Proof.
  intros Hs. induction Hs as [s Hs|s e Hs IH]; intros Hsup.
  - destruct Hs as (_ & _ & Hrecording & Hrec & _).
    revert Hsup. unfold cannotRecord, init.
    exec; simpl; intros Hsup; rewrite ?Hsup in *; simpl in *; close_case.
  - pose proof (step_sameSupport v e s) as Hsame.
    unfold sameSupport, state_of in *. rewrite Hsame in Hsup.
    by apply (step_cannotRecord v e s), IH.
Qed.

(** X7. In a browser without speech recognition no recogniser is ever
    built and recording never becomes active.  A click on the microphone
    button then starts nothing: the continuous script adds one error
    bubble to the log, the single-shot script raises one alert. *)
Theorem no_recognition_no_recording (v : variant) (s : State) :
  reachable v s →
  SpeechRecognition s = false →
  let r := step v MicBtnClick s in
  recognition s = false
  ∧ isRecording s = false
  ∧ isRecording (state_of r) = false
  ∧ recognition (state_of r) = false
  ∧ match v with
    | Continuous =>
        effects_of r = []
        ∧ messages (state_of r) =
            messages s
            ++ [mkMessageEl error
                  (js "Voice input is not supported on your device.")]
    | SingleShot =>
        effects_of r =
          [Alert (js "Voice input is not supported in your browser. Please type instead.")]
        ∧ messages (state_of r) = messages s
    end.
Proof.
  intros Hs Hsup.
  destruct (reachable_cannotRecord v s Hs Hsup) as (_ & Hrec & Hrecording).
  cbv zeta. split_and!; try done.
  - exec; close_case.
  - exec; close_case.
  - exec; split; close_case.
Qed.

Lemma no_recognition_no_recording_witness :
  let s := after Continuous [MicBtnClick; RecognitionOnStart]
             (state_of (init Continuous (page true false))) in
  let r := step Continuous MicBtnClick s in
  recognition s = false
  ∧ isRecording s = false
  ∧ isRecording (state_of r) = false
  ∧ recognition (state_of r) = false
  ∧ effects_of r = []
  ∧ messages (state_of r) =
      messages s
      ++ [mkMessageEl error
            (js "Voice input is not supported on your device.")].
Proof.
  apply (no_recognition_no_recording Continuous).
  - apply reachable_run, reachable_init, evaluated_page.
  - reflexivity.
Defined.

(** *** One safety timer *)

(** X8. In the continuous script at most one safety timer is pending at
    any time; each start event replaces the one pending, if any, by a
    fresh one, which is the one [recordingTimeout] names. *)
Theorem one_safety_timer (s : State) (id1 id2 : positive) :
  reachable Continuous s →
  (timers s !! id1 = Some SafetyTimeout →
   timers s !! id2 = Some SafetyTimeout → id1 = id2)
  ∧ let r := recognition_onstart Continuous s in
    recordingTimeout (state_of r) = Some (nextTimer s)
    ∧ (timers (state_of r) !! id1 = Some SafetyTimeout ↔ id1 = nextTimer s).
Proof.
  intros Hs. pose proof (reachable_safetyTimerOwned s Hs) as Howned. split.
  - intros H1 H2. destruct (Howned id1 H1) as [_ E1].
    destruct (Howned id2 H2) as [_ E2]. congruence.
  - cbv zeta. split; [by exec|].
    exec; simpl.
    all: split; [|by intros ->; apply lookup_insert_eq].
    all: intros Hid; destruct (decide (id1 = nextTimer s)) as [|Hne]; [done|].
    all: exfalso; rewrite lookup_insert_ne in Hid by congruence.
    all: try apply lookup_delete_Some in Hid as [Hne' Hid].
    all: destruct (Howned id1 Hid) as [_ Hrt]; congruence.
Qed.

Lemma one_safety_timer_witness :
  let s := after Continuous
             [MicBtnClick; RecognitionOnStart; RecognitionOnEnd;
              TimerFires 2 false]
             (loaded Continuous) in
  (timers s !! 1%positive = Some SafetyTimeout →
   timers s !! 1%positive = Some SafetyTimeout → 1%positive = 1%positive)
  ∧ let r := recognition_onstart Continuous s in
    recordingTimeout (state_of r) = Some (nextTimer s)
    ∧ (timers (state_of r) !! 1%positive = Some SafetyTimeout
       ↔ 1%positive = nextTimer s).
Proof.
  apply one_safety_timer.
  apply reachable_run, reachable_loaded.
Defined.

(** *** Idle means reset *)

Lemma stopRecording_idleReset :
  keeps (preserves idleReset) (stopRecording Continuous).
Proof. intros s H. unfold idleReset. exec; close_case. Qed.

Lemma onstart_idleReset :
  keeps (preserves idleReset) (recognition_onstart Continuous).
Proof. intros s H. unfold idleReset. exec; close_case. Qed.

Lemma onend_idleReset :
  keeps (preserves idleReset) (recognition_onend Continuous).
Proof.
  intros s H. unfold idleReset in *. exec; simpl; try done.
  all: intros Hrec; rewrite ?Hrec in *; simpl in *; try done.
  all: destruct H as [? ?]; [done|]; split; congruence.
Qed.

Ltac idle_tac :=
  keeps_with
    ltac:(first [ apply stopRecording_idleReset
                | apply onstart_idleReset
                | apply onend_idleReset ])
    ltac:(unfold preserves; simpl; repeat case_match; simpl;
          try (intros H; exact H)).

Lemma step_idleReset e : keeps (preserves idleReset) (step Continuous e).
Proof. destruct e; by idle_tac. Qed.

(** X9. In the continuous script, whenever recording is not active the
    restart counter is 0, no safety timer is named or pending, and an end
    event changes nothing: restarts are only counted, and the recogniser
    only watched, during a recording. *)
Theorem idle_is_reset (s : State) :
  reachable Continuous s →
  isRecording s = false →
  restartAttempts s = 0%nat
  ∧ recordingTimeout s = None
  ∧ (∀ id, timers s !! id ≠ Some SafetyTimeout)
  ∧ recognition_onend Continuous s = (tt, s, []).
Proof.
  intros Hs Hrec.
  assert (Hidle : idleReset s).
  { clear Hrec. revert s Hs.
    apply reachable_invariant; [|apply step_idleReset].
    intros s0 (_ & _ & _ & _ & _ & _ & Hrt & Hn & _). unfold idleReset, init.
    exec; close_case. }
  destruct (Hidle Hrec) as [Hn Hrt]. split_and!; try done.
  - intros id Hid.
    destruct (reachable_safetyTimerOwned s Hs id Hid). congruence.
  - unfold recognition_onend, bind, get. simpl. by rewrite Hrec, Hn.
Qed.

Lemma idle_is_reset_witness :
  let s := after Continuous
             [MicBtnClick; RecognitionOnStart; RecognitionOnEnd; MicBtnClick]
             (loaded Continuous) in
  restartAttempts s = 0%nat
  ∧ recordingTimeout s = None
  ∧ (∀ id, timers s !! id ≠ Some SafetyTimeout)
  ∧ recognition_onend Continuous s = (tt, s, []).
Proof.
  apply idle_is_reset.
  - apply reachable_run, reachable_loaded.
  - reflexivity.
Defined.

(** *** Dictation *)

Lemma collectTranscripts_from (rs : list SpeechResult) a b :
  foldl (λ acc r, if isFinal r then (acc.1 ++ transcript r, acc.2)
                  else (acc.1, acc.2 ++ transcript r)) (a, b) rs =
    (a ++ finals rs, b ++ interims rs).
Proof.
  unfold finals, interims.
  revert a b. induction rs as [|r rs IH]; intros a b; simpl.
  - by rewrite !app_nil_r.
  - destruct (isFinal r); rewrite IH; simpl;
      by rewrite <- ?(assoc app), ?app_nil_r.
Qed.

Lemma collectTranscripts_spec (rs : list SpeechResult) :
  collectTranscripts rs = (finals rs, interims rs).
Proof. unfold collectTranscripts. by rewrite collectTranscripts_from. Qed.

Lemma joinTranscripts_from (rs : list SpeechResult) a :
  foldl (λ acc r, acc ++ transcript r) a rs = a ++ concat (transcript <$> rs).
Proof.
  revert a. induction rs as [|r rs IH]; intros a; simpl.
  - by rewrite app_nil_r.
  - by rewrite IH, <- (assoc app).
Qed.

Lemma joinTranscripts_spec (rs : list SpeechResult) :
  joinTranscripts rs = concat (transcript <$> rs).
Proof. unfold joinTranscripts. by rewrite joinTranscripts_from. Qed.

(** X10. A result event only writes the input field (and, in the
    continuous script, its placeholder): nothing is sent, spoken or added
    to the log.  In the continuous script the field receives the final
    transcripts from [resultIndex] on, concatenated in order, when they
    are non-empty, else the interim ones when those are non-empty; in the
    single-shot script it receives all transcripts concatenated when
    non-empty.  With nothing to show, in particular when [resultIndex] is
    past the last result, the field keeps its content. *)
Theorem result_fills_input (v : variant) (ev : ResultEvent) (s : State) :
  let rs := drop (resultIndex ev) (results ev) in
  let r := recognition_onresult v ev s in
  effects_of r = []
  ∧ messages (state_of r) = messages s
  ∧ isRecording (state_of r) = isRecording s
  ∧ messageInput_value (state_of r) =
      match v with
      | Continuous =>
          if truthy (finals rs) then finals rs
          else if truthy (interims rs) then interims rs
          else messageInput_value s
      | SingleShot =>
          if truthy (concat (transcript <$> rs)) then concat (transcript <$> rs)
          else messageInput_value s
      end
  ∧ ((length (results ev) ≤ resultIndex ev)%nat → state_of r = s).
Proof.
  cbv zeta. unfold recognition_onresult.
  rewrite collectTranscripts_spec, joinTranscripts_spec.
  assert (Hpast : (length (results ev) ≤ resultIndex ev)%nat →
                  drop (resultIndex ev) (results ev) = []).
  { apply drop_ge. }
  destruct v; cbv zeta; simpl.
  - set (rs := drop (resultIndex ev) (results ev)) in *.
    unfold bind, when, modify, ret, state_of, effects_of.
    destruct (truthy (interims rs)) eqn:Hi, (truthy (finals rs)) eqn:Hf;
      simpl; split_and!; try done.
    all: intros Hle; rewrite (Hpast Hle) in *; done.
  - set (rs := drop (resultIndex ev) (results ev)) in *.
    unfold when, modify, ret, state_of, effects_of.
    destruct (truthy (concat (transcript <$> rs))) eqn:Ht;
      simpl; split_and!; try done.
    intros Hle; rewrite (Hpast Hle) in *; done.
Qed.

(** *** A chat exchange over HTTP *)

(** X11. A non-blank message sent while no socket is open makes one
    chat request, shows the typing indicator and empties the input field.
    However the request settles, no second request is made, the typing
    indicator is hidden again and the log has gained exactly two bubbles:
    the user's text as typed, then the reply (which is also spoken) or,
    for a rejected request, a status that is not [ok] or a body that does
    not parse, the error notice (which is not spoken). *)
Theorem http_exchange (v : variant) (text : jsstring) (r : Response)
    (s : State) :
  truthy (trim text) = true →
  socketOpen (socket s) = false →
  let a := sendMessage text s in
  let b := step v (FetchSettles (nextRequest s) r) (state_of a) in
  effects_of a =
    [Fetch (nextRequest s) (API_URL ++ js "/chat")
       (BodyChat text (sessionId s) (speakSlowly s))]
  ∧ typingIndicator_hidden (state_of a) = false
  ∧ messageInput_value (state_of a) = []
  ∧ messages (state_of b) =
      messages s
      ++ [mkMessageEl user text;
          match r with
          | Replied true (Some data) => mkMessageEl assistant (response data)
          | _ => mkMessageEl error (sendFailedText v)
          end]
  ∧ typingIndicator_hidden (state_of b) = true
  ∧ filter isFetch (effects_of b) = []
  ∧ utterances (effects_of b) =
      match r with
      | Replied true (Some data) =>
          if speechSynthesis s then [response data] else []
      | _ => []
      end.
Proof.
  intros Htext Hsock. cbv zeta.
  assert (Ha : sendMessage text s =
    (tt,
     set_nextRequest (Pos.succ (nextRequest s))
       (set_pending (<[nextRequest s := AwaitSendMessage]> (pending s))
          (set_typingIndicator_hidden false
             (set_messageInput_value []
                (set_messages (messages s ++ [mkMessageEl user text]) s)))),
     [Fetch (nextRequest s) (API_URL ++ js "/chat")
        (BodyChat text (sessionId s) (speakSlowly s))])).
  { unfold sendMessage, showMessage, fetch, bind, get, modify, emit.
    rewrite Htext. simpl. by rewrite Hsock. }
  rewrite Ha. clear Ha Htext Hsock. unfold state_of, effects_of. cbn [fst snd].
  split_and!; try done.
  all: unfold step, fetchSettles, bind, get, modify; simpl;
    rewrite lookup_insert_eq; simpl.
  all: destruct r as [|[] [data|]]; exec; close_case.
  all: by rewrite <- (assoc app).
Qed.

Lemma http_exchange_witness :
  let s := loaded SingleShot in
  let text := js " printer? " in
  let r := Replied false (Some (mkJson undefined [] [])) in
  let a := sendMessage text s in
  let b := step SingleShot (FetchSettles (nextRequest s) r) (state_of a) in
  effects_of a =
    [Fetch (nextRequest s) (API_URL ++ js "/chat")
       (BodyChat text (sessionId s) (speakSlowly s))]
  ∧ typingIndicator_hidden (state_of a) = false
  ∧ messageInput_value (state_of a) = []
  ∧ messages (state_of b) =
      messages s
      ++ [mkMessageEl user text; mkMessageEl error (sendFailedText SingleShot)]
  ∧ typingIndicator_hidden (state_of b) = true
  ∧ filter isFetch (effects_of b) = []
  ∧ utterances (effects_of b) = [].
Proof.
  apply (http_exchange SingleShot (js " printer? ")
           (Replied false (Some (mkJson undefined [] []))) (loaded SingleShot)).
  - vm_compute. reflexivity.
  - reflexivity.
Defined.

(** *** Which transport a message takes *)

(** X12. Once a session-start request has settled with a body, a
    message goes by HTTP, carrying the new session identifier and the
    speak-slowly flag.  When the socket could be constructed (the
    identifier has no [#] in it), that lasts until the socket's open event
    has arrived; from then on the message goes over the socket, as the
    bare text and with no HTTP request; once the socket has closed,
    messages go by HTTP again.  When the socket could not be constructed
    and none was held before, the events of a socket change nothing and
    messages keep going by HTTP. *)
Theorem socket_used_while_open (v : variant) (ok : bool) (data : Json)
    (text : jsstring) (s : State) :
  truthy (trim text) = true →
  let s1 := state_of (startSession_settled v (Replied ok (Some data)) s) in
  let s2 := state_of (step v SocketOnOpen s1) in
  let s3 := state_of (step v SocketOnClose s2) in
  let request := Fetch (nextRequest s) (API_URL ++ js "/chat")
                   (BodyChat text (session_id data) (speakSlowly s)) in
  effects_of (sendMessage text s1) = [request]
  ∧ (hasFragment (toString (session_id data)) = false →
     effects_of (sendMessage text s2) = [SocketSend (BodyMessage text)]
     ∧ effects_of (sendMessage text s3) = [request])
  ∧ (hasFragment (toString (session_id data)) = true →
     socket s = None →
     s2 = s1 ∧ s3 = s1).
Proof.
  intros Htext. cbv zeta.
  unfold sendMessage. rewrite Htext.
  split_and!.
  - exec; close_case.
    all: destruct (socket s) as [[? []]|]; simpl in *; congruence.
  - intros Hfrag. rewrite <- hasFragment_target in Hfrag.
    split; exec; close_case.
  - intros Hfrag Hnone. rewrite <- hasFragment_target in Hfrag.
    split; exec; close_case.
    all: try (rewrite Hnone in *; simpl in *; congruence).
    all: destruct s; simpl in *; by subst.
Qed.

Lemma socket_used_while_open_witness :
  let v := Continuous in
  let data := mkJson (str (js "s1")) (js "Hi!") [] in
  let text := js "help" in
  let s := loaded Continuous in
  let s1 := state_of (startSession_settled v (Replied true (Some data)) s) in
  let s2 := state_of (step v SocketOnOpen s1) in
  let s3 := state_of (step v SocketOnClose s2) in
  let request := Fetch (nextRequest s) (API_URL ++ js "/chat")
                   (BodyChat text (session_id data) (speakSlowly s)) in
  effects_of (sendMessage text s1) = [request]
  ∧ effects_of (sendMessage text s2) = [SocketSend (BodyMessage text)]
  ∧ effects_of (sendMessage text s3) = [request].
Proof.
  destruct (socket_used_while_open Continuous true
              (mkJson (str (js "s1")) (js "Hi!") []) (js "help")
              (loaded Continuous)) as (H1 & H2 & _);
    [vm_compute; reflexivity|].
  split; [exact H1|]. apply H2. vm_compute. reflexivity.
Defined.

(** *** Asking for a human *)


(** *** Repeating and slowing down *)

(** X14. The two repeat controls, the read-last button and the quick
    button carrying the repeat phrase, leave the whole state as it is and
    send nothing: each only calls [speak], on the cached reply when there
    is one and on its own fixed sentence otherwise.  A quick button with
    any other text, also one differing from the phrase only in case,
    sends that text like a typed message. *)
Theorem repeat_controls (text : jsstring) (s : State) :
  readLastBtn_click s =
    (tt, s, spoken s (if truthy (lastResponse s) then lastResponse s
                      else nothingYet))
  ∧ quickBtn_click repeatPhrase s =
      (tt, s, spoken s (if truthy (lastResponse s) then lastResponse s
                        else nothingSaid))
  ∧ (text ≠ repeatPhrase → quickBtn_click text s = sendMessage text s)
  ∧ quickBtn_click (js "can you say that again?") s =
      sendMessage (js "can you say that again?") s.
Proof.
  unfold readLastBtn_click, quickBtn_click, repeatPhrase, nothingYet,
    nothingSaid, bind, get.
  split_and!.
  - simpl. destruct (truthy (lastResponse s)); rewrite speak_run; simpl; done.
  - rewrite bool_decide_eq_true_2 by done. simpl.
    destruct (truthy (lastResponse s)); rewrite speak_run; simpl; done.
  - intros Hne. by rewrite bool_decide_eq_false_2.
  - rewrite bool_decide_eq_false_2; [done|]. vm_compute. discriminate.
Qed.

(** X15. The speak-slowly button flips the flag and announces the change
    at the rate it has just set, 0.7 when slow and 0.9 otherwise; the
    next utterance is spoken at that rate, and a second click restores
    the flag.  Nothing is sent and no bubble is added. *)
Theorem speak_slowly_toggle (text : jsstring) (s : State) :
  let r1 := speakSlowlyBtn_click s in
  let s1 := state_of r1 in
  let r2 := speakSlowlyBtn_click s1 in
  speakSlowly s1 = negb (speakSlowly s)
  ∧ speakSlowlyBtn_active s1 = speakSlowly s1
  ∧ effects_of r1 =
      (if speechSynthesis s
       then [SynthCancel;
             if speakSlowly s
             then SynthSpeak (js "I will speak at normal speed.") Rate09
             else SynthSpeak (js "I will speak more slowly now.") Rate07]
       else [])
  ∧ effects_of (speak text s1) =
      (if speechSynthesis s
       then [SynthCancel;
             SynthSpeak text (if speakSlowly s then Rate09 else Rate07)]
       else [])
  ∧ speakSlowly (state_of r2) = speakSlowly s
  ∧ messages (state_of r2) = messages s
  ∧ sent (effects_of r1 ++ effects_of r2) = [].
Proof.
  cbv zeta. split_and!; exec; close_case.
  all: simpl; apply negb_involutive.
Qed.

(** *** The voice of an utterance *)

Lemma startsWith_spec (s p : jsstring) :
  startsWith s p = true ↔ ∃ r, s = p ++ r.
Proof.
  revert s. induction p as [|c p IH]; intros s; simpl.
  - split; [by exists s|by destruct s].
  - destruct s as [|d s]; simpl.
    + split; [done|]. by intros [r Hr].
    + rewrite andb_true_iff, N.eqb_eq, IH. split.
      * intros [-> [r ->]]. by exists r.
      * intros [r [= -> ->]]. split; [done|by exists r].
Qed.

Lemma includes_spec (s sub : jsstring) :
  includes s sub = true ↔ ∃ a b, s = a ++ sub ++ b.
Proof.
  induction s as [|d s IH].
  - change (includes [] sub) with (startsWith [] sub || false).
    rewrite orb_false_r, startsWith_spec. split.
    + intros [r Hr]. by exists [], r.
    + intros (a & b & H). destruct a; [by exists b|done].
  - change (includes (d :: s) sub)
      with (startsWith (d :: s) sub || includes s sub).
    rewrite orb_true_iff, startsWith_spec, IH. split.
    + intros [[r Hr]|(a & b & ->)]; [by exists [], r|by exists (d :: a), b].
    + intros (a & b & H). destruct a as [|d' a].
      * left. by exists b.
      * right. injection H as -> ->. by exists a, b.
Qed.

Lemma find_None {A} (p : A → bool) (l : list A) :
  find p l = None ↔ ∀ x, x ∈ l → p x = false.
Proof.
  induction l as [|y l IH]; simpl.
  - split; [|done]. intros _ x Hx. by apply elem_of_nil in Hx.
  - destruct (p y) eqn:Hy.
    + split; [done|]. intros H. specialize (H y (list_elem_of_here _ _)).
      congruence.
    + rewrite IH. split.
      * intros H x [->|Hx]%elem_of_cons; [done|by apply H].
      * intros H x Hx. apply H. by apply elem_of_cons; right.
Qed.

Lemma find_Some {A} (p : A → bool) (l : list A) x :
  find p l = Some x →
  p x = true ∧ ∃ l1 l2, l = l1 ++ x :: l2 ∧ ∀ y, y ∈ l1 → p y = false.
Proof.
  induction l as [|y l IH]; simpl; [done|].
  destruct (p y) eqn:Hy.
  - intros [= ->]. split; [done|]. exists [], l. split; [done|].
    intros z Hz. by apply elem_of_nil in Hz.
  - intros H. destruct (IH H) as (Hx & l1 & l2 & -> & Hl1).
    split; [done|]. exists (y :: l1), l2. split; [done|].
    intros z [->|Hz]%elem_of_cons; [done|by apply Hl1].
Qed.

(** X16. The voice [speak] gives its utterance is always one of the
    voices offered whose language tag starts with [en], and there is one
    exactly when such a voice is offered.  The single-shot script takes
    the first English voice; the continuous script takes the first
    English voice whose name contains Natural, Samantha or Karen when
    there is one, and otherwise the voice the single-shot script
    takes. *)
Theorem preferred_voice_is_english (v : variant) (voices : list Voice) :
  (∀ x, english x = true ↔ ∃ r, lang x = js "en" ++ r)
  ∧ (∀ x, named x = true ↔
          ∃ a b, name x = a ++ js "Natural" ++ b
                 ∨ name x = a ++ js "Samantha" ++ b
                 ∨ name x = a ++ js "Karen" ++ b)
  ∧ (preferredVoice v voices = None ↔ ∀ x, x ∈ voices → english x = false)
  ∧ (∀ x, preferredVoice v voices = Some x → x ∈ voices ∧ english x = true)
  ∧ (∀ x, preferredVoice SingleShot voices = Some x →
          ∃ l1 l2, voices = l1 ++ x :: l2
                   ∧ ∀ y, y ∈ l1 → english y = false)
  ∧ (∀ y, y ∈ voices → english y = true → named y = true →
          ∃ x l1 l2, preferredVoice Continuous voices = Some x
                     ∧ named x = true
                     ∧ voices = l1 ++ x :: l2
                     ∧ ∀ z, z ∈ l1 → english z && named z = false)
  ∧ ((∀ y, y ∈ voices → english y && named y = false) →
     preferredVoice Continuous voices = preferredVoice SingleShot voices).
Proof.
  split_and!.
  - intros x. apply startsWith_spec.
  - intros x. unfold named. rewrite !orb_true_iff, !includes_spec. split.
    + intros [[(a & b & H)|(a & b & H)]|(a & b & H)]; exists a, b; tauto.
    + intros (a & b & [H|[H|H]]); [left; left|left; right|right];
        by exists a, b.
  - unfold preferredVoice. destruct v.
    + destruct (find (λ x, english x && named x) voices) as [x|] eqn:Hn.
      * split; [done|]. intros H.
        destruct (find_Some _ _ _ Hn) as (Hx & l1 & l2 & -> & _).
        apply andb_true_iff in Hx as [Hx _].
        rewrite H in Hx; [done|]. apply elem_of_app; right.
        apply list_elem_of_here.
      * apply find_None.
    + apply find_None.
  - intros x. unfold preferredVoice.
    assert (Hfind : ∀ p, (∀ y, p y = true → english y = true) →
              find p voices = Some x → x ∈ voices ∧ english x = true).
    { intros p Hp H. destruct (find_Some _ _ _ H) as (Hx & l1 & l2 & -> & _).
      split; [|by apply Hp]. apply elem_of_app; right. apply list_elem_of_here. }
    destruct v.
    + destruct (find (λ x, english x && named x) voices) as [x'|] eqn:Hn.
      * intros [= <-]. apply (Hfind (λ x, english x && named x)); [|done].
        by intros y [? ?]%andb_true_iff.
      * by apply Hfind.
    + by apply Hfind.
  - intros x H. by destruct (find_Some _ _ _ H) as (_ & l1 & l2 & ? & ?); eauto.
  - intros y Hy He Hnm. unfold preferredVoice.
    destruct (find (λ x, english x && named x) voices) as [x|] eqn:Hn.
    + destruct (find_Some _ _ _ Hn) as (Hx & l1 & l2 & ? & ?).
      apply andb_true_iff in Hx as [_ Hx]. by exists x, l1, l2.
    + rewrite find_None in Hn. specialize (Hn y Hy).
      rewrite He, Hnm in Hn. done.
  - intros H. unfold preferredVoice.
    by rewrite (proj2 (find_None (λ x, english x && named x) voices) H).
Qed.

Example preferredVoice_example :
  let voices := [mkVoice (js "de-DE") (js "Anna");
                 mkVoice (js "en-GB") (js "Daniel");
                 mkVoice (js "en-US") (js "Samantha (Enhanced)")] in
  preferredVoice Continuous voices =
    Some (mkVoice (js "en-US") (js "Samantha (Enhanced)"))
  ∧ preferredVoice SingleShot voices =
      Some (mkVoice (js "en-GB") (js "Daniel")).
Proof. vm_compute. by split. Qed.
